(** * keras-alexnet: the Grad-CAM / guided-backprop visualisation script
    and the training script

    A shallow embedding of [gradcam.py] and [alexnet.py].  An element of
    a floating array is a rational ([Q]) or one of NaN and the two
    infinities, so that a division by zero and a product with an
    infinity show; rounding, overflow and the sign of zero are not
    modelled, and the activations and gradients TensorFlow hands to
    [grad_cam] are taken to be finite.  Calls into numpy, OpenCV, Keras,
    TensorFlow, [os] and [random] are modelled by their documented
    contract next to the source function that makes the call; where the
    result of a library call is not determined by what the script holds
    (a prediction, a gradient, a resized image, whether OpenCV accepts
    an image), the call is a variable of the section, with the
    exception it may raise. *)

From Stdlib Require Import QArith Qround Qminmax Lqa ZArith List String Ascii Lia.
From Stdlib Require Import DecimalString.
From stdpp Require Import base decidable option list gmap strings.

Local Open Scope string_scope.
Local Open Scope list_scope.

(** ** Exceptions *)

(** The exception classes the script can meet.  [OSError] stands for the
    class and its subclasses ([FileExistsError], [PermissionError],
    [NotADirectoryError], ...); [cv2_error] is OpenCV's [cv2.error]. *)
Inductive exn : Type :=
  | KeyboardInterrupt
  | SystemExit (code : option Z)
  | KeyError (key : string)
  | IndexError
  | ValueError
  | TypeError
  | OSError
  | cv2_error.

Inductive result (A : Type) : Type :=
  | Ok (a : A)
  | Raise (e : exn).
Arguments Ok {A} a.
Arguments Raise {A} e.

(** A computation over a mutable state [S] that may raise.  The state
    survives the exception, as the Python objects do. *)
Definition M (S A : Type) : Type := S -> result A * S.

Definition ret {S A} (a : A) : M S A := fun s => (Ok a, s).
Definition raise {S A} (e : exn) : M S A := fun s => (Raise e, s).
Definition bind {S A B} (m : M S A) (k : A -> M S B) : M S B :=
  fun s => match m s with
           | (Ok a, s') => k a s'
           | (Raise e, s') => (Raise e, s')
           end.
Definition get {S} : M S S := fun s => (Ok s, s).
Definition put {S} (s : S) : M S unit := fun _ => (Ok tt, s).

Notation "x <- m ;; k" := (bind m (fun x => k))
  (at level 100, m at next level, right associativity).
Notation "m ;;; k" := (bind m (fun _ => k))
  (at level 100, right associativity).

(** ** Scalars *)

Definition Qltb (x y : Q) : bool := negb (Qle_bool y x).

(** ** Floating-point values *)

(** An element of a floating array: a finite value or one of the three
    non-finite ones.  Rounding, overflow and the sign of zero are not
    modelled. *)
Inductive npfloat : Type :=
  | Fin (q : Q)
  | PInf
  | NInf
  | NaN.

Definition fneg (x : npfloat) : npfloat :=
  match x with
  | Fin q => Fin (- q)
  | PInf => NInf
  | NInf => PInf
  | NaN => NaN
  end.

Definition fadd (x y : npfloat) : npfloat :=
  match x, y with
  | NaN, _ | _, NaN => NaN
  | PInf, NInf | NInf, PInf => NaN
  | PInf, _ | _, PInf => PInf
  | NInf, _ | _, NInf => NInf
  | Fin a, Fin b => Fin (a + b)
  end.

Definition fsub (x y : npfloat) : npfloat := fadd x (fneg y).

(** The sign of a value that is not NaN: [Lt], [Eq] or [Gt] against 0. *)
Definition fsign (x : npfloat) : comparison :=
  match x with
  | Fin q => Qcompare q 0
  | PInf => Gt
  | NInf => Lt
  | NaN => Eq
  end.

Definition signed_inf (s t : comparison) : npfloat :=
  match s, t with
  | Eq, _ | _, Eq => NaN
  | Gt, Gt | Lt, Lt => PInf
  | _, _ => NInf
  end.

Definition fmul (x y : npfloat) : npfloat :=
  match x, y with
  | NaN, _ | _, NaN => NaN
  | Fin a, Fin b => Fin (a * b)
  | _, _ => signed_inf (fsign x) (fsign y)
  end.

(** Division with the IEEE results for a zero divisor: [0/0] is NaN and
    [x/0] is an infinity of the sign of [x]. *)
Definition fdiv (x y : npfloat) : npfloat :=
  match x, y with
  | NaN, _ | _, NaN => NaN
  | Fin a, Fin b =>
      if Qeq_bool b 0 then signed_inf (Qcompare a 0) Gt else Fin (a / b)
  | Fin _, _ => Fin 0
  | _, Fin b => signed_inf (fsign x) (if Qeq_bool b 0 then Gt else Qcompare b 0)
  | _, _ => NaN
  end.

(** [np.maximum] and [np.minimum] propagate NaN. *)
Definition fmax (x y : npfloat) : npfloat :=
  match x, y with
  | NaN, _ | _, NaN => NaN
  | PInf, _ | _, PInf => PInf
  | NInf, z | z, NInf => z
  | Fin a, Fin b => Fin (Qmax a b)
  end.

Definition fmin (x y : npfloat) : npfloat :=
  match x, y with
  | NaN, _ | _, NaN => NaN
  | NInf, _ | _, NInf => NInf
  | PInf, z | z, PInf => z
  | Fin a, Fin b => Fin (Qmin a b)
  end.

(** [np.clip(x, lo, hi)] on one element. *)
Definition fclip (lo hi : Q) (x : npfloat) : npfloat :=
  fmin (fmax x (Fin lo)) (Fin hi).

Definition fsum (l : list npfloat) : npfloat := foldr fadd (Fin 0) l.

Definition of_nat (n : nat) : npfloat := Fin (inject_Z (Z.of_nat n)).
Definition of_Z (z : Z) : npfloat := Fin (inject_Z z).

(** [np.mean]: the sum over the element count; NaN for an empty array. *)
Definition np_mean (l : list npfloat) : npfloat :=
  fdiv (fsum l) (of_nat (length l)).

(** Rounding toward zero, the C conversion of a float to an integer. *)
Definition Qtrunc (q : Q) : Z :=
  if Qltb q 0 then Qceiling q else Qfloor q.

(** Conversion of one element to [uint8]: truncation, then wrap-around
    modulo 256.  C leaves the conversion of a non-finite value
    undefined; 0 is what numpy returns on the usual platforms. *)
Definition to_uint8 (x : npfloat) : Z :=
  match x with
  | Fin q => (Qtrunc q) mod 256
  | _ => 0
  end%Z.

(** ** The guided-backprop gradient rule (gradcam.py, lines 82-86) *)

(** [x > 0.] on one element: an ordered comparison, False for NaN. *)
Definition fgt0 (x : npfloat) : bool :=
  match x with
  | Fin q => Qltb 0 q
  | PInf => true
  | NInf | NaN => false
  end.

(** [tf.cast(b, dtype)] of a boolean to a floating dtype. *)
Definition tf_cast (b : bool) : npfloat := if b then Fin 1 else Fin 0.

(** A TensorFlow operation, as far as the rule reads it: its input
    tensors, flattened. *)
Record operation : Type := { op_inputs : list (list npfloat) }.

(** One element of [grad * tf.cast(grad > 0., dtype) * tf.cast(op.inputs[0] > 0., dtype)]:
    the products are floating products, so an infinite or NaN gradient
    times a mask of 0 is NaN. *)
Definition guided_value (grad x : npfloat) : npfloat :=
  fmul (fmul grad (tf_cast (fgt0 grad))) (tf_cast (fgt0 x)).

(** [_GuidedBackProp(op, grad)]: the products are elementwise over the
    incoming gradient and the first input of the operation. *)
Definition _GuidedBackProp (op : operation) (grad : list npfloat)
    : result (list npfloat) :=
  match op_inputs op with
  | [] => Raise IndexError
  | x :: _ => Ok (zip_with guided_value grad x)
  end.

(** ** The gradient registry (tensorflow.python.framework.ops) *)

Definition gradient_rule : Type := operation -> list npfloat -> result (list npfloat).

(** [ops._gradient_registry._registry] is a dict from names to rules. *)
Abbreviation registry := (gmap string gradient_rule).

(** [ops.RegisterGradient(name)(f)]: TensorFlow's [Registry.register]
    raises [KeyError] when the name is taken and stores the rule
    otherwise. *)
Definition RegisterGradient (name : string) (f : gradient_rule)
    : M registry unit :=
  reg <- get ;;
  match reg !! name with
  | Some _ => raise (KeyError name)
  | None => put (<[name := f]> reg)
  end.

(** Lines 81-86 of [guided_backprop]:
    [if "GuidedBackProp" not in ops._gradient_registry._registry: ...]. *)
Definition register_guided_backprop : M registry unit :=
  reg <- get ;;
  match reg !! "GuidedBackProp" with
  | None => RegisterGradient "GuidedBackProp" _GuidedBackProp
  | Some _ => ret tt
  end.

(** Running the registration path [n] times in a row. *)
Fixpoint repeat_registration (n : nat) : M registry unit :=
  match n with
  | O => ret tt
  | S n' => register_guided_backprop ;;; repeat_registration n'
  end.

(** ** Keras models as mutable objects *)

(** The activation functions a layer may reference.  Keras compares them
    by identity ([layer.activation == keras.activations.relu]). *)
Inductive activation_fn : Type :=
  | keras_relu
  | keras_linear
  | keras_softmax
  | tf_nn_relu.

#[global] Instance activation_fn_eq_dec : EqDecision activation_fn.
Proof. solve_decision. Defined.

(** A layer: its name and, when the layer class has one, its
    [activation] attribute ([hasattr(layer, 'activation')]). *)
Record layer : Type := {
  layer_name : string;
  activation : option activation_fn
}.

(** A model object: its layers, and the name of the gradient rule under
    which its [Relu] operations were built ("Relu" unless a
    [gradient_override_map] was active when the graph was constructed). *)
Record keras_model : Type := {
  layers : list layer;
  relu_gradient : string
}.

(** The process state [guided_backprop] works on: the gradient registry,
    the live model objects (a reference is an index into [objects]) and
    the model files on disk. *)
Record tf_state : Type := {
  gradient_registry : registry;
  objects : list keras_model;
  disk : gmap string (list layer)
}.

Definition with_registry (f : M registry unit) : M tf_state unit :=
  fun st =>
    let '(r, reg) := f (gradient_registry st) in
    (r, {| gradient_registry := reg; objects := objects st; disk := disk st |}).

(** [keras.models.load_model(path)], run while [Relu] is mapped to
    [gradient_name]: a new model object built from the file. *)
Definition load_model (path : string) (gradient_name : string) : M tf_state nat :=
  st <- get ;;
  match disk st !! path with
  | None => raise OSError
  | Some ls =>
      put {| gradient_registry := gradient_registry st;
             objects := objects st ++ [{| layers := ls; relu_gradient := gradient_name |}];
             disk := disk st |} ;;;
      ret (length (objects st))
  end.

(** Lines 72-74: [if layer.activation == keras.activations.relu:
    layer.activation = tf.nn.relu].  Layers without the attribute were
    filtered out at line 69 and are left alone. *)
Definition replace_relu (l : layer) : layer :=
  match activation l with
  | Some a =>
      if decide (a = keras_relu)
      then {| layer_name := layer_name l; activation := Some tf_nn_relu |}
      else l
  | None => l
  end.

(** The loop of lines 69-74 over [model.layers[1:]]: the layer objects
    are those of the model passed in, so the assignment is seen through
    every reference to that model. *)
Definition replace_relu_layers (ls : list layer) : list layer :=
  match ls with
  | [] => []
  | first :: rest => first :: map replace_relu rest
  end.

(** [modify_backprop(model, gradient_name)], lines 58-78; [path] is the
    variable of the enclosing [guided_backprop]. *)
Definition modify_backprop (path : string) (model : nat) (gradient_name : string)
    : M tf_state nat :=
  st <- get ;;
  match objects st !! model with
  | None => raise ValueError
  | Some m =>
      put {| gradient_registry := gradient_registry st;
             objects := <[model := {| layers := replace_relu_layers (layers m);
                                      relu_gradient := relu_gradient m |}]> (objects st);
             disk := disk st |} ;;;
      load_model path gradient_name
  end.

(** [model.get_layer(name)]: raises [ValueError] when no layer has the name. *)
Definition get_layer (m : keras_model) (name : string) : result layer :=
  match List.find (fun l => bool_decide (layer_name l = name)) (layers m) with
  | Some l => Ok l
  | None => Raise ValueError
  end.

Section GuidedBackprop.

(** The saliency function Keras compiles for a model and a target
    layer (lines 49-56).  TensorFlow derives it when
    [keras.backend.gradients] runs, taking the gradient rule of each
    operation from the registry as it is at that moment. *)
Variable saliency_function :
  registry -> keras_model -> string -> list npfloat -> list npfloat.

Definition compile_saliency_function (model : nat) (target_layer : string)
    : M tf_state (list npfloat -> list npfloat) :=
  st <- get ;;
  match objects st !! model with
  | None => raise ValueError
  | Some m =>
      match get_layer m target_layer with
      | Raise e => raise e
      | Ok _ => ret (saliency_function (gradient_registry st) m target_layer)
      end
  end.

(** [guided_backprop(model, image, target_layer, path)], lines 43-91. *)
Definition guided_backprop (model : nat) (image : list npfloat)
    (target_layer path : string) : M tf_state (list npfloat) :=
  with_registry register_guided_backprop ;;;
  guided_model <- modify_backprop path model "GuidedBackProp" ;;
  saliency_fn <- compile_saliency_function guided_model target_layer ;;
  ret (saliency_fn image).

End GuidedBackprop.

(** ** numpy arrays *)

(** The memory of an array, by element type. *)
Inductive buffer : Type :=
  | FloatBuf (l : list npfloat)
  | UInt8Buf (l : list Z).

(** An array object: a C-contiguous window of [shape] elements into the
    buffer at [base], starting at [offset].  Basic indexing and
    [np.squeeze] return such windows on the same buffer. *)
Record ndarray : Type := {
  base : nat;
  offset : nat;
  shape : list nat
}.

Abbreviation heap := (list buffer).

Definition product (sh : list nat) : nat := foldr Nat.mul 1%nat sh.
Definition np_size (a : ndarray) : nat := product (shape a).
Definition np_ndim (a : ndarray) : nat := length (shape a).

Definition window {A} (off n : nat) (l : list A) : list A := take n (drop off l).
Definition splice {A} (off : nat) (new l : list A) : list A :=
  take off l ++ new ++ drop (off + length new) l.

(** Allocation of a new array. *)
Definition alloc (b : buffer) (sh : list nat) : M heap ndarray :=
  h <- get ;;
  put (h ++ [b]) ;;;
  ret {| base := length h; offset := 0; shape := sh |}.

(** The elements an array sees in its buffer, in row-major order. *)
Definition view (a : ndarray) (b : buffer) : buffer :=
  match b with
  | FloatBuf l => FloatBuf (window (offset a) (np_size a) l)
  | UInt8Buf l => UInt8Buf (window (offset a) (np_size a) l)
  end.

Definition contents (a : ndarray) : M heap buffer :=
  h <- get ;;
  match h !! base a with
  | Some b => ret (view a b)
  | None => raise ValueError
  end.

(** [np.float32(x)] / the value of each element as a float. *)
Definition as_float (b : buffer) : list npfloat :=
  match b with
  | FloatBuf l => l
  | UInt8Buf l => map of_Z l
  end.

(** An augmented assignment [x op= s] with a floating scalar [s]: the
    elements the array sees are overwritten in its buffer.  On an integer
    array numpy refuses to cast the floating result back
    (UFuncTypeError, a TypeError). *)
Definition inplace_float (f : npfloat -> npfloat) (a : ndarray) : M heap unit :=
  h <- get ;;
  match h !! base a with
  | Some (FloatBuf l) =>
      put (<[base a := FloatBuf (splice (offset a) (map f (window (offset a) (np_size a) l)) l)]> h)
  | Some (UInt8Buf _) => raise TypeError
  | None => raise ValueError
  end.

(** A ufunc applied elementwise to a floating array, allocating the result. *)
Definition map_float (f : npfloat -> npfloat) (a : ndarray) : M heap ndarray :=
  b <- contents a ;;
  alloc (FloatBuf (map f (as_float b))) (shape a).

(** [np.squeeze(x)]: the same buffer seen without the axes of length 1. *)
Definition np_squeeze (a : ndarray) : ndarray :=
  {| base := base a; offset := offset a;
     shape := List.filter (fun n => negb (Nat.eqb n 1)) (shape a) |}.

(** [x.transpose((1, 2, 0))] of a three-axis array of shape (c, r, k):
    element (i, j, l) of the result is element (l, i, j) of [x].  numpy
    returns a strided view; the script only reads it, so the model copies. *)
Definition transpose_120 (c r k : nat) (l : list npfloat) : list npfloat :=
  i ← seq 0 r; j ← seq 0 k; ch ← seq 0 c;
  [nth (ch * (r * k) + i * k + j) l NaN].

Definition np_transpose_120 (a : ndarray) : M heap ndarray :=
  match shape a with
  | [c; r; k] =>
      b <- contents a ;;
      alloc (FloatBuf (transpose_120 c r k (as_float b))) [r; k; c]
  | _ => raise ValueError
  end.

(** [x.astype('uint8')] and [np.uint8(x)]. *)
Definition astype_uint8 (a : ndarray) : M heap ndarray :=
  b <- contents a ;;
  alloc (UInt8Buf (match b with
                   | FloatBuf l => map to_uint8 l
                   | UInt8Buf l => l
                   end)) (shape a).

Section NormalizeImage.

(** The square root numpy takes in [x.std()]. *)
Variable sqrt : Q -> Q.

(** [keras.backend.image_dim_ordering()], read from the Keras
    configuration: "tf" or "th". *)
Variable image_dim_ordering : string.

Definition fsqrt (x : npfloat) : npfloat :=
  match x with
  | Fin q => if Qltb q 0 then NaN else Fin (sqrt q)
  | PInf => PInf
  | _ => NaN
  end.

(** [x.std()]: the root of the mean squared deviation from the mean. *)
Definition np_std (l : list npfloat) : npfloat :=
  let m := np_mean l in
  fsqrt (np_mean (map (fun v => fmul (fsub v m) (fsub v m)) l)).

Definition x_mean (x : ndarray) : M heap npfloat :=
  b <- contents x ;; ret (np_mean (as_float b)).
Definition x_std (x : ndarray) : M heap npfloat :=
  b <- contents x ;; ret (np_std (as_float b)).

(** [normalize_image(x)], lines 19-40. *)
Definition normalize_image (x : ndarray) : M heap ndarray :=
  let x := if (3 <? np_ndim x)%nat then np_squeeze x else x in
  m <- x_mean x ;;
  inplace_float (fun v => fsub v m) x ;;;
  s <- x_std x ;;
  inplace_float (fun v => fdiv v (fadd s (Fin (1 # 100000)))) x ;;;
  inplace_float (fun v => fmul v (Fin (1 # 10))) x ;;;
  inplace_float (fun v => fadd v (Fin (1 # 2))) x ;;;
  x <- map_float (fclip 0 1) x ;;
  inplace_float (fun v => fmul v (Fin 255)) x ;;;
  x <- (if String.eqb image_dim_ordering "th" then np_transpose_120 x else ret x) ;;
  x <- map_float (fclip 0 255) x ;;
  astype_uint8 x.

End NormalizeImage.

(** ** Broadcasting *)

Definition pad_shape (n : nat) (sh : list nat) : list nat :=
  replicate (n - length sh) 1%nat ++ sh.

Definition broadcast_dim (a b : nat) : option nat :=
  if (a =? b)%nat then Some a
  else if (a =? 1)%nat then Some b
  else if (b =? 1)%nat then Some a
  else None.

(** The common shape of two shapes of equal rank, if they are compatible. *)
Fixpoint broadcast_shapes (s t : list nat) : option (list nat) :=
  match s, t with
  | [], [] => Some []
  | a :: s', b :: t' =>
      match broadcast_dim a b, broadcast_shapes s' t' with
      | Some d, Some r => Some (d :: r)
      | _, _ => None
      end
  | _, _ => None
  end.

(** All the index tuples of a shape, in row-major order. *)
Fixpoint indices (sh : list nat) : list (list nat) :=
  match sh with
  | [] => [[]]
  | n :: sh' => i ← seq 0 n; (cons i) <$> indices sh'
  end.

(** Where an index tuple of the common shape reads in an operand of
    shape [sh]: an axis of length 1 is read at 0. *)
Fixpoint flat_index (sh idx : list nat) : nat :=
  match sh, idx with
  | d :: sh', i :: idx' =>
      ((if (d =? 1)%nat then 0 else i) * product sh' + flat_index sh' idx')%nat
  | _, _ => 0%nat
  end.

(** [a + b] on two floating operands given by shape and elements. *)
Definition broadcast_add (s : list nat) (l : list npfloat)
    (t : list nat) (m : list npfloat) : result (list nat * list npfloat) :=
  let n := Nat.max (length s) (length t) in
  let ps := pad_shape n s in
  let pt := pad_shape n t in
  match broadcast_shapes ps pt with
  | None => Raise ValueError
  | Some sh =>
      Ok (sh, (fun idx => fadd (nth (flat_index ps idx) l NaN)
                               (nth (flat_index pt idx) m NaN)) <$> indices sh)
  end.

(** ** The compositor: [overlay_heatmap] *)

(** [image[0, :]]: the first block along axis 0, a view on the buffer of
    [image].  It needs two axes and a non-empty first one. *)
Definition first_along_axis0 (a : ndarray) : M heap ndarray :=
  match shape a with
  | S _ :: d :: rest =>
      ret {| base := base a; offset := offset a; shape := d :: rest |}
  | _ => raise IndexError
  end.

(** [np.min] / [np.max] of the elements; they raise on an empty array. *)
Definition np_min_float (l : list npfloat) : result npfloat :=
  match l with
  | [] => Raise ValueError
  | v :: vs => Ok (foldr fmin v vs)
  end.
Definition np_max_float (l : list npfloat) : result npfloat :=
  match l with
  | [] => Raise ValueError
  | v :: vs => Ok (foldr fmax v vs)
  end.
Definition np_min_uint8 (l : list Z) : result Z :=
  match l with
  | [] => Raise ValueError
  | v :: vs => Ok (foldr Z.min v vs)
  end.

(** [image -= np.min(image)], line 129: the minimum has the dtype of the
    array, so the update is done in place for either dtype; [uint8]
    arithmetic wraps around. *)
Definition subtract_min_inplace (a : ndarray) : M heap unit :=
  h <- get ;;
  match h !! base a with
  | Some (FloatBuf l) =>
      let w := window (offset a) (np_size a) l in
      match np_min_float w with
      | Raise e => raise e
      | Ok m => put (<[base a := FloatBuf (splice (offset a) (map (fun v => fsub v m) w) l)]> h)
      end
  | Some (UInt8Buf l) =>
      let w := window (offset a) (np_size a) l in
      match np_min_uint8 w with
      | Raise e => raise e
      | Ok m => put (<[base a := UInt8Buf (splice (offset a) (map (fun v => (v - m) mod 256)%Z w) l)]> h)
      end
  | None => raise ValueError
  end.

(** [np.minimum(image, 255)]: a new array of the dtype of [image]. *)
Definition minimum_255 (a : ndarray) : M heap ndarray :=
  b <- contents a ;;
  alloc (match b with
         | FloatBuf l => FloatBuf (map (fun v => fmin v (Fin 255)) l)
         | UInt8Buf l => UInt8Buf (map (fun v => Z.min v 255) l)
         end) (shape a).

(** [255 * heatmap]: the Python integer takes the dtype of the array. *)
Definition times_255 (a : ndarray) : M heap ndarray :=
  b <- contents a ;;
  alloc (match b with
         | FloatBuf l => FloatBuf (map (fun v => fmul (Fin 255) v) l)
         | UInt8Buf l => UInt8Buf (map (fun v => (255 * v) mod 256)%Z l)
         end) (shape a).

Section OverlayHeatmap.

(** OpenCV's 256-entry table [cv2.COLORMAP_JET]: the (blue, green,
    red) bytes of each grey level. *)
Variable COLORMAP_JET : Z -> Z * Z * Z.

(** The shape OpenCV gives the coloured image.  A two-axis array is an
    image of that many rows and columns, and a one-axis array of n
    elements is read as an image of n rows and one column.  An empty map
    fails an assertion.  With three axes OpenCV reads the last one as
    channels; the model leaves that case out and raises there too. *)
Definition colormap_shape (sh : list nat) : option (list nat) :=
  match sh with
  | [S r; S c] => Some [S r; S c; 3%nat]
  | [S n] => Some [S n; 1%nat; 3%nat]
  | _ => None
  end.

(** [cv2.applyColorMap(src, cv2.COLORMAP_JET)] on an 8-bit map. *)
Definition applyColorMap (src : ndarray) : M heap ndarray :=
  match colormap_shape (shape src) with
  | Some sh =>
      b <- contents src ;;
      match b with
      | UInt8Buf l =>
          alloc (UInt8Buf (v ← l; let '(cb, cg, cr) := COLORMAP_JET v in [cb; cg; cr])) sh
      | FloatBuf _ => raise cv2_error
      end
  | None => raise cv2_error
  end.

(** [overlay_heatmap(image, heatmap)], lines 124-136. *)
Definition overlay_heatmap (image heatmap : ndarray) : M heap ndarray :=
  image <- first_along_axis0 image ;;
  subtract_min_inplace image ;;;
  image <- minimum_255 image ;;
  scaled <- times_255 heatmap ;;
  grey <- astype_uint8 scaled ;;
  cam <- applyColorMap grey ;;
  cam_b <- contents cam ;;
  image_b <- contents image ;;
  match broadcast_add (shape cam) (as_float cam_b) (shape image) (as_float image_b) with
  | Raise e => raise e
  | Ok (sh, sum) =>
      match np_max_float sum with
      | Raise e => raise e
      | Ok mx =>
          cam <- alloc (FloatBuf (map (fun v => fdiv (fmul (Fin 255) v) mx) sum)) sh ;;
          astype_uint8 cam
      end
  end.

End OverlayHeatmap.

(** ** OpenCV's [cv2.resize] *)

Definition Qnat (n : nat) : Q := inject_Z (Z.of_nat n).

(** Bilinear sampling along one axis (OpenCV's default, INTER_LINEAR):
    destination index [d] of [dst_len] reads source position
    [(d + 1/2) * src_len / dst_len - 1/2], clamped to the source; the
    result is the left tap and the weight of the right tap. *)
Definition linear_tap (src_len dst_len d : nat) : nat * Q :=
  let f := ((Qnat d + (1 # 2)) * (Qnat src_len / Qnat dst_len) - (1 # 2))%Q in
  let s := Qfloor f in
  if (s <? 0)%Z then (0%nat, 0%Q)
  else if (Z.of_nat src_len - 1 <=? s)%Z then ((src_len - 1)%nat, 0%Q)
  else (Z.to_nat s, (f - inject_Z s)%Q).

Definition pixel (src : list (list Q)) (r c : nat) : Q :=
  nth c (nth r src []) 0%Q.

Definition bilinear (src : list (list Q)) (rows cols dst_rows dst_cols r c : nat) : Q :=
  let '(sy, fy) := linear_tap rows dst_rows r in
  let '(sx, fx) := linear_tap cols dst_cols c in
  let sy1 := Nat.min (sy + 1) (rows - 1) in
  let sx1 := Nat.min (sx + 1) (cols - 1) in
  ((1 - fy) * ((1 - fx) * pixel src sy sx + fx * pixel src sy sx1)
   + fy * ((1 - fx) * pixel src sy1 sx + fx * pixel src sy1 sx1))%Q.

(** [cv2.resize(src, dsize)] of a single-channel floating image given as
    [rows] rows of [cols] values.  OpenCV's [dsize] is (width, height):
    the result has [snd dsize] rows of [fst dsize] values.  An empty
    source or an empty [dsize] fails an OpenCV assertion, which Python
    sees as [cv2.error]. *)
Definition cv2_resize (rows cols : nat) (src : list (list Q)) (dsize : nat * nat)
    : result (list (list Q)) :=
  let '(dst_cols, dst_rows) := dsize in
  if (rows =? 0)%nat || (cols =? 0)%nat || (dst_cols =? 0)%nat || (dst_rows =? 0)%nat
  then Raise cv2_error
  else Ok ((fun r => (fun c => bilinear src rows cols dst_rows dst_cols r c) <$> seq 0 dst_cols)
             <$> seq 0 dst_rows).

(** ** Grad-CAM *)

(** A (rows, cols, channels) tensor, elements in row-major order. *)
Record tensor3 : Type := {
  t_rows : nat;
  t_cols : nat;
  t_chans : nat;
  t_data : list Q
}.

Definition t_at (t : tensor3) (i j k : nat) : Q :=
  nth ((i * t_cols t + j) * t_chans t + k) (t_data t) 0%Q.

Definition Qsum (l : list Q) : Q := foldr Qplus 0%Q l.

(** [np.mean(grads_val, axis=(0, 1))]: one mean per channel. *)
Definition channel_means (g : tensor3) : list Q :=
  (fun k => (Qsum (i ← seq 0 (t_rows g); (fun j => t_at g i j k) <$> seq 0 (t_cols g))
             / Qnat (t_rows g * t_cols g))%Q) <$> seq 0 (t_chans g).

(** [np.dot(output, weights)]: at each position, the sum over the
    channels of activation times weight.  numpy raises [ValueError] when
    the last axis of [output] and [weights] differ in length. *)
Definition np_dot (output : tensor3) (weights : list Q) : result (list (list Q)) :=
  if (t_chans output =? length weights)%nat
  then Ok ((fun i => (fun j =>
         Qsum ((fun k => (t_at output i j k * nth k weights 0)%Q) <$> seq 0 (t_chans output)))
         <$> seq 0 (t_cols output)) <$> seq 0 (t_rows output))
  else Raise ValueError.

(** [np.max] of a two-axis array. *)
Definition np_max2 (a : list (list Q)) : result Q :=
  match concat a with
  | [] => Raise ValueError
  | v :: vs => Ok (foldr Qmax v vs)
  end.

Section GradCam.

(** Line 105, [model.output[0, category_index]]: TensorFlow builds the
    symbolic class score or refuses the index. *)
Variable class_score : keras_model -> nat -> result unit.

(** The Keras function of lines 107-112: for a model, a class index,
    a layer and an image it yields the layer's activations and the
    gradient of the class score with respect to them (first sample of
    the batch), or raises.  Both tensors come from TensorFlow. *)
Variable gradient_function :
  keras_model -> nat -> string -> list npfloat -> result (tensor3 * tensor3).

(** [grad_cam(model, image, category_index, layer_name, height, width)],
    lines 94-121. *)
Definition grad_cam (model : keras_model) (image : list npfloat)
    (category_index : nat) (layer_name : string) (height width : nat)
    : result (list (list npfloat)) :=
  match class_score model category_index with
  | Raise e => Raise e
  | Ok _ =>
  match get_layer model layer_name with
  | Raise e => Raise e
  | Ok _ =>
  match gradient_function model category_index layer_name image with
  | Raise e => Raise e
  | Ok (output, grads_val) =>
      let weights := channel_means grads_val in
      match np_dot output weights with
      | Raise e => Raise e
      | Ok cam =>
          let cam := map (map (Qmax 0)) cam in
          match cv2_resize (t_rows output) (t_cols output) cam (height, width) with
          | Raise e => Raise e
          | Ok cam =>
              match np_max2 cam with
              | Raise e => Raise e
              | Ok mx => Ok (map (map (fun v => fdiv (Fin v) (Fin mx))) cam)
              end
          end
      end
  end end end.

End GradCam.

(** The (rows, columns) of a two-axis array given as a list of rows. *)
Definition shape2 {A} (a : list (list A)) : nat * nat :=
  (length a, length (nth 0 a [])).

(** ** The process and its environment *)

(** [os.path.join(a, b)] on POSIX paths. *)
Definition ends_with_slash (a : string) : bool :=
  match String.get (String.length a - 1) a with
  | Some c => Ascii.eqb c "/"%char
  | None => false
  end.

Definition os_path_join (a b : string) : string :=
  if String.prefix "/" b then b
  else if (String.length a =? 0)%nat || ends_with_slash a then String.append a b
  else String.append a (String.append "/" b).

(** [str(n)] of a non-negative integer. *)
Definition str (n : nat) : string := NilEmpty.string_of_uint (Nat.to_uint n).

(** Indexing a sequence by a non-negative integer. *)
Definition getitem {A} (l : list A) (i : nat) : result A :=
  match l !! i with
  | Some x => Ok x
  | None => Raise IndexError
  end.

Definition lift_result {S A} (r : result A) : M S A :=
  match r with
  | Ok a => ret a
  | Raise e => raise e
  end.

(** What the scripts work on: the working directory, the directories
    that exist and the paths at which the operating system refuses to
    create one, the TensorFlow process state (with the model files on
    disk), the numpy arrays, the state of the random generator (its
    future outputs and how many have been taken), and what the script
    has done so far: the targets handed to [cv2.imwrite] and to
    [save_weights], in order, and the lines printed.  Paths are compared
    as written. *)
Record world : Type := {
  cwd : string;
  directories : gset string;
  unwritable : gset string;
  tensorflow : tf_state;
  arrays : heap;
  random_outputs : nat -> nat;
  random_draws : nat;
  imwrite_calls : list string;
  save_weights_calls : list string;
  printed : list string
}.

Definition set_directories (d : gset string) (w : world) : world :=
  {| cwd := cwd w; directories := d; unwritable := unwritable w;
     tensorflow := tensorflow w; arrays := arrays w;
     random_outputs := random_outputs w; random_draws := random_draws w;
     imwrite_calls := imwrite_calls w; save_weights_calls := save_weights_calls w;
     printed := printed w |}.

Definition set_tensorflow (t : tf_state) (w : world) : world :=
  {| cwd := cwd w; directories := directories w; unwritable := unwritable w;
     tensorflow := t; arrays := arrays w;
     random_outputs := random_outputs w; random_draws := random_draws w;
     imwrite_calls := imwrite_calls w; save_weights_calls := save_weights_calls w;
     printed := printed w |}.

Definition set_arrays (h : heap) (w : world) : world :=
  {| cwd := cwd w; directories := directories w; unwritable := unwritable w;
     tensorflow := tensorflow w; arrays := h;
     random_outputs := random_outputs w; random_draws := random_draws w;
     imwrite_calls := imwrite_calls w; save_weights_calls := save_weights_calls w;
     printed := printed w |}.

Definition set_random_draws (n : nat) (w : world) : world :=
  {| cwd := cwd w; directories := directories w; unwritable := unwritable w;
     tensorflow := tensorflow w; arrays := arrays w;
     random_outputs := random_outputs w; random_draws := n;
     imwrite_calls := imwrite_calls w; save_weights_calls := save_weights_calls w;
     printed := printed w |}.

Definition set_imwrite_calls (l : list string) (w : world) : world :=
  {| cwd := cwd w; directories := directories w; unwritable := unwritable w;
     tensorflow := tensorflow w; arrays := arrays w;
     random_outputs := random_outputs w; random_draws := random_draws w;
     imwrite_calls := l; save_weights_calls := save_weights_calls w;
     printed := printed w |}.

Definition set_save_weights_calls (l : list string) (w : world) : world :=
  {| cwd := cwd w; directories := directories w; unwritable := unwritable w;
     tensorflow := tensorflow w; arrays := arrays w;
     random_outputs := random_outputs w; random_draws := random_draws w;
     imwrite_calls := imwrite_calls w; save_weights_calls := l;
     printed := printed w |}.

Definition set_printed (l : list string) (w : world) : world :=
  {| cwd := cwd w; directories := directories w; unwritable := unwritable w;
     tensorflow := tensorflow w; arrays := arrays w;
     random_outputs := random_outputs w; random_draws := random_draws w;
     imwrite_calls := imwrite_calls w; save_weights_calls := save_weights_calls w;
     printed := l |}.

(** A computation on the arrays, or on the TensorFlow state, run in
    the process. *)
Definition lift_heap {A} (m : M heap A) : M world A :=
  fun w => let '(r, h) := m (arrays w) in (r, set_arrays h w).

Definition lift_tf {A} (m : M tf_state A) : M world A :=
  fun w => let '(r, t) := m (tensorflow w) in (r, set_tensorflow t w).

(** The prefixes of a path that end just before a "/", outermost
    first: the directories above it.  The root is not listed. *)
Fixpoint path_prefixes (seen rest : string) : list string :=
  match rest with
  | EmptyString => []
  | String c rest' =>
      let later := path_prefixes (String.append seen (String c EmptyString)) rest' in
      if Ascii.eqb c "/"%char && negb (String.length seen =? 0)%nat
         && negb (ends_with_slash seen)
      then seen :: later else later
  end.

Definition ancestors (p : string) : list string := path_prefixes "" p.

Definition is_file (w : world) (p : string) : bool :=
  bool_decide (p ∈ dom (disk (tensorflow w))).

Definition path_exists (w : world) (p : string) : bool :=
  bool_decide (p ∈ directories w) || is_file w p.

(** [os.mkdir(p)]: refused when the path exists, when a regular file is
    in the way above it, or when the operating system denies it. *)
Definition os_mkdir (p : string) : M world unit :=
  w <- get ;;
  if path_exists w p || existsb (is_file w) (ancestors p)
     || bool_decide (p ∈ unwritable w)
  then raise OSError
  else put (set_directories ({[p]} ∪ directories w) w).

(** [os.makedirs(p)]: the missing directories above [p] are made first,
    outermost first, then [p] itself; what was made before a refusal
    stays. *)
Fixpoint make_missing (ps : list string) : M world unit :=
  match ps with
  | [] => ret tt
  | p :: ps' =>
      w <- get ;;
      (if path_exists w p then ret tt else os_mkdir p) ;;;
      make_missing ps'
  end.

Definition os_makedirs (p : string) : M world unit :=
  make_missing (ancestors p) ;;; os_mkdir p.

Definition print (s : string) : M world unit :=
  w <- get ;; put (set_printed (printed w ++ [s]) w).

(** [random.randint(a, b)] returns an integer N with a <= N <= b:
    [a + _randbelow(b - a + 1)], and a [ValueError] for an empty range.
    The generator's next output decides the value; each of the
    b - a + 1 values belongs to one residue of it. *)
Definition randbelow (n : nat) : M world nat :=
  w <- get ;;
  put (set_random_draws (S (random_draws w)) w) ;;;
  ret (random_outputs w (random_draws w) mod n)%nat.

Definition randint (a b : nat) : M world nat :=
  if (b <? a)%nat then raise ValueError
  else k <- randbelow (b - a + 1) ;; ret (a + k)%nat.

(** The values [random.randint(a, b)] can return, each with the same
    probability. *)
Definition randint_outcomes (a b : nat) : list nat := seq a (b + 1 - a).
Definition randint_probability (a b k : nat) : Q :=
  if bool_decide (k ∈ randint_outcomes a b) then (1 / Qnat (b + 1 - a))%Q else 0%Q.

(** alexnet.py, lines 7-8, and the defaults of [parse_arguments]. *)
Definition default_model_name : string := "keras_alexnet.h5".
Definition default_model_dir : string := "saved_models".
Definition default_p : string := os_path_join default_model_dir default_model_name.
Definition default_o : string := "output".

(** An 8-bit image as the data set holds it: its shape and its bytes in
    row-major order. *)
Record picture : Type := {
  pic_shape : list nat;
  pic_bytes : list Z
}.

(** [keras.datasets.cifar100.load_data]: the training and the test
    part, each a list of images and the list of their labels. *)
Definition dataset : Type :=
  (list picture * list nat) * (list picture * list nat).

(** ** alexnet.py: the batch generator and the training script *)

Module alexnet.

(** [keras.utils.to_categorical(y, num_classes)]: one row per label,
    with a 1 in the column of the label and 0 elsewhere; a label outside
    [0, num_classes) is an [IndexError]. *)
Definition one_hot (num_classes label : nat) : list Q :=
  (fun k => if (k =? label)%nat then 1%Q else 0%Q) <$> seq 0 num_classes.

Definition to_categorical (y : list nat) (num_classes : nat) : result (list (list Q)) :=
  if forallb (fun label => (label <? num_classes)%nat) y
  then Ok (one_hot num_classes <$> y)
  else Raise IndexError.

(** How one run of the [for] loop of [generator] ends: at the end of
    the data, or in an exception. *)
Inductive loop_end : Type :=
  | Exhausted
  | ZeroDivisionError
  | Raised (e : exn).

Section Generator.

(** Images as the data set holds them, and OpenCV's resize on them. *)
Variable image : Type.
Variable cv2_resize_image : image -> nat * nat -> result image.

(** [preprocess_image(image, image_height, image_width)], lines 80-87:
    the two sizes go to [cv2.resize] in this order. *)
Definition preprocess_image (img : image) (image_height image_width : nat)
    : result image :=
  cv2_resize_image img (image_height, image_width).

Variables (batch_size class_count image_height image_width : nat).
Variables (x_data : list image) (y_data : list nat).

(** A batch as yielded: [np.array(X)] and the one-hot labels. *)
Definition batch : Type := list image * list (list Q).

(** The [for] loop of lines 103-109 from position [index] on, with the
    lists [X] and [Y] collected so far: the batches it yields, in
    order, and how it ends.  [rest] is [x_data[index:]]. *)
Fixpoint for_loop (rest : list image) (index : nat) (X : list image) (Y : list nat)
    : list batch * loop_end :=
  match rest with
  | [] => ([], Exhausted)
  | x :: rest' =>
      match preprocess_image x image_height image_width with
      | Raise e => ([], Raised e)
      | Ok p =>
          let X := X ++ [p] in
          match y_data !! index with
          | None => ([], Raised IndexError)
          | Some y =>
              let Y := Y ++ [y] in
              if (batch_size =? 0)%nat then ([], ZeroDivisionError)
              else if ((index + 1) mod batch_size =? 0)%nat then
                match to_categorical Y class_count with
                | Raise e => ([], Raised e)
                | Ok labels =>
                    let '(later, e) := for_loop rest' (S index) [] [] in
                    ((X, labels) :: later, e)
                end
              else for_loop rest' (S index) X Y
          end
      end
  end.

(** [generator(batch_size, class_count, image_height, image_width,
    x_data, y_data)], lines 97-109, observed over the first [passes]
    iterations of its [while True]: the batches yielded, and the
    exception that ended the generator if there was one.  Each iteration
    starts with empty [X] and [Y]. *)
Fixpoint generator (passes : nat) : list batch * option loop_end :=
  match passes with
  | O => ([], None)
  | S passes' =>
      match for_loop x_data 0 [] [] with
      | (batches, Exhausted) =>
          let '(later, e) := generator passes' in (batches ++ later, e)
      | (batches, e) => (batches, Some e)
      end
  end.

End Generator.

(** [load_dataset()], lines 90-94: what Keras's CIFAR-100 loader
    returns, or the exception it raises. *)
Definition load_dataset (cifar100_load_data : result dataset) : result dataset :=
  cifar100_load_data.

(** Python's binding of the arguments of a call to the parameters of a
    function (the receiver left out): a [TypeError], raised before the
    body runs, when there are more positional arguments than
    parameters, when a keyword is not a parameter or names one already
    filled by position, or when one of the first [required] parameters
    is left without a value. *)
Definition bind_arguments (parameters : list string) (required positional : nat)
    (keywords : list string) : result unit :=
  if (length parameters <? positional)%nat then Raise TypeError
  else if negb (forallb (fun k => bool_decide (k ∈ drop positional parameters)) keywords)
  then Raise TypeError
  else if negb (forallb (fun p => bool_decide (p ∈ keywords))
                  (drop positional (take required parameters)))
  then Raise TypeError
  else Ok tt.

(** The parameters of Keras's [Model.fit_generator] and
    [Model.evaluate_generator]; the generator is required.  (Keras also
    accepts the Keras 1 names of some parameters as keywords; "steps"
    is not one of them for [fit_generator].) *)
Definition fit_generator_parameters : list string :=
  ["generator"; "steps_per_epoch"; "epochs"; "verbose"; "callbacks";
   "validation_data"; "validation_steps"; "class_weight"; "max_queue_size";
   "workers"; "use_multiprocessing"; "shuffle"; "initial_epoch"].

Definition evaluate_generator_parameters : list string :=
  ["generator"; "steps"; "max_queue_size"; "workers"; "use_multiprocessing";
   "verbose"].

Section Script.

(** The calls into Keras, by whether they return: [build_model] (lines
    11-77, constructors only), [model.summary], [model.compile], the
    body of [fit_generator] on a generator, the body of
    [evaluate_generator] with the scores it returns (as printed), and
    [model.save_weights]. *)
Variable build_model : nat -> result unit.
Variable summary : result unit.
Variable compile : result unit.
Variable fit_generator :
  (nat -> list (batch picture) * option loop_end) -> result unit.
Variable evaluate_generator : result (list string).
Variable save_weights : string -> result unit.
Variable cifar100_load_data : result dataset.
Variable cv2_resize_image : picture -> nat * nat -> result picture.

(** [train_model(model, image_height=224, image_width=224, class_count)],
    lines 112-135. *)
Definition train_model (class_count : nat) : M world unit :=
  lift_result compile ;;;
  data <- lift_result (load_dataset cifar100_load_data) ;;
  let '((x_train, y_train), _) := data in
  let batch_size := 128%nat in
  let batch_generator :=
    generator picture cv2_resize_image batch_size class_count 224 224 x_train y_train in
  lift_result (bind_arguments fit_generator_parameters 1 0
                 ["generator"; "steps_per_epoch"; "epochs"]) ;;;
  lift_result (fit_generator batch_generator).

(** [evaluate(model, class_count, image_height=224, image_width=224)],
    lines 144-160. *)
Definition evaluate (class_count : nat) : M world unit :=
  data <- lift_result (load_dataset cifar100_load_data) ;;
  let '(_, (x_test, y_test)) := data in
  let batch_size := 128%nat in
  let batch_generator :=
    generator picture cv2_resize_image batch_size class_count 224 224 x_test y_test in
  lift_result (bind_arguments fit_generator_parameters 1 0 ["generator"; "steps"]) ;;;
  lift_result (fit_generator batch_generator) ;;;
  lift_result (bind_arguments evaluate_generator_parameters 1 0 []) ;;;
  scores <- lift_result evaluate_generator ;;
  loss <- lift_result (getitem scores 0) ;;
  print (String.append "Test Loss:\t " loss) ;;;
  accuracy <- lift_result (getitem scores 1) ;;
  print (String.append "Test Accuracy:\t " accuracy).

(** [main()], lines 163-185; [argv] is [sys.argv].  [model.summary()]
    returns [None], which is what line 169 prints. *)
Definition main (argv : list string) : M world unit :=
  lift_result (build_model 100) ;;;
  lift_result summary ;;;
  print "None" ;;;
  train_model 100 ;;;
  evaluate 100 ;;;
  w <- get ;;
  model_path <-
    (if (length argv =? 0)%nat
     then lift_result (getitem argv 0)
     else
       let save_dir := os_path_join (cwd w) default_model_dir in
       (if bool_decide (save_dir ∈ directories w) then ret tt else os_makedirs save_dir) ;;;
       ret (os_path_join save_dir default_model_name)) ;;
  w <- get ;;
  put (set_save_weights_calls (save_weights_calls w ++ [model_path]) w) ;;;
  lift_result (save_weights model_path) ;;;
  print (String.append "Model Saved to: %s " model_path).

End Script.

End alexnet.

(** ** The orchestrator: [main] of gradcam.py *)

(** [np.array([p])]: a new array holding one image. *)
Definition np_array1 (p : picture) : M heap ndarray :=
  alloc (UInt8Buf (pic_bytes p)) (1%nat :: pic_shape p).

(** [a[0]]: the first block along axis 0, a view on the buffer of [a]. *)
Definition np_getitem0 (a : ndarray) : M heap ndarray :=
  match shape a with
  | S _ :: rest => ret {| base := base a; offset := offset a; shape := rest |}
  | _ => raise IndexError
  end.

(** [a[..., np.newaxis]]: the same elements with a last axis of length 1. *)
Definition np_newaxis_last (a : ndarray) : ndarray :=
  {| base := base a; offset := offset a; shape := shape a ++ [1%nat] |}.

(** [a * b] on two floating operands given by shape and elements. *)
Definition broadcast_mul (s : list nat) (l : list npfloat)
    (t : list nat) (m : list npfloat) : result (list nat * list npfloat) :=
  let n := Nat.max (length s) (length t) in
  let ps := pad_shape n s in
  let pt := pad_shape n t in
  match broadcast_shapes ps pt with
  | None => Raise ValueError
  | Some sh =>
      Ok (sh, (fun idx => fmul (nth (flat_index ps idx) l NaN)
                               (nth (flat_index pt idx) m NaN)) <$> indices sh)
  end.

Definition np_multiply (a b : ndarray) : M heap ndarray :=
  a_b <- contents a ;;
  b_b <- contents b ;;
  match broadcast_mul (shape a) (as_float a_b) (shape b) (as_float b_b) with
  | Raise e => raise e
  | Ok (sh, prod) => alloc (FloatBuf prod) sh
  end.

(** [np.argmax(predictions, axis=1)]: for each row the index of its
    first largest value; an empty row is a [ValueError]. *)
Fixpoint argmax_from (best_index : nat) (best : Q) (i : nat) (l : list Q) : nat :=
  match l with
  | [] => best_index
  | v :: l' =>
      if Qltb best v then argmax_from i v (S i) l'
      else argmax_from best_index best (S i) l'
  end.

Definition argmax_row (row : list Q) : result nat :=
  match row with
  | [] => Raise ValueError
  | v :: row' => Ok (argmax_from 0 v 1 row')
  end.

Fixpoint np_argmax_axis1 (a : list (list Q)) : result (list nat) :=
  match a with
  | [] => Ok []
  | row :: a' =>
      match argmax_row row with
      | Raise e => Raise e
      | Ok i =>
          match np_argmax_axis1 a' with
          | Raise e => Raise e
          | Ok rest => Ok (i :: rest)
          end
      end
  end.

(** ["...%u..." % a] with an integer array as the only operand: the
    array must hold exactly one element. *)
Definition format_u (a : list nat) : result string :=
  match a with
  | [n] => Ok (str n)
  | _ => Raise TypeError
  end.

(** A two-axis floating array from its rows. *)
Definition np_from_rows (rows : list (list npfloat)) : M heap ndarray :=
  alloc (FloatBuf (concat rows)) [length rows; length (nth 0 rows [])].

Section Main.

(** [parse_arguments()]: the values of [-p] and [-o]. *)
Variables (arg_p arg_o : string).

(** The library calls of [main], by what they return or raise: the
    CIFAR-100 loader, OpenCV's resize of an 8-bit image, the refusal of
    an image by OpenCV's writer, and [model.predict]. *)
Variable cifar100_load_data : result dataset.
Variable cv2_resize_image : picture -> nat * nat -> result picture.
Variable imwrite_error : string -> list nat -> buffer -> option exn.
Variable predict : keras_model -> list npfloat -> result (list (list Q)).

(** What [grad_cam], [guided_backprop], [overlay_heatmap] and
    [normalize_image] take from TensorFlow, OpenCV, numpy and Keras. *)
Variable class_score : keras_model -> nat -> result unit.
Variable gradient_function :
  keras_model -> nat -> string -> list npfloat -> result (tensor3 * tensor3).
Variable saliency_function :
  registry -> keras_model -> string -> list npfloat -> list npfloat.
Variable COLORMAP_JET : Z -> Z * Z * Z.
Variable sqrt : Q -> Q.
Variable image_dim_ordering : string.

(** [cv2.imwrite(p, img)]: the call is made with the elements the array
    holds at that moment; OpenCV may refuse the image. *)
Definition cv2_imwrite (p : string) (img : ndarray) : M world unit :=
  b <- lift_heap (contents img) ;;
  w <- get ;;
  put (set_imwrite_calls (imwrite_calls w ++ [p]) w) ;;;
  match imwrite_error p (shape img) b with
  | Some e => raise e
  | None => ret tt
  end.

(** The model object behind a reference. *)
Definition model_object (model : nat) : M world keras_model :=
  w <- get ;;
  match objects (tensorflow w) !! model with
  | Some m => ret m
  | None => raise ValueError
  end.

(** [main()], lines 156-193. *)
Definition main : M world unit :=
  w <- get ;;
  let path := arg_p in
  let output := os_path_join (cwd w) arg_o in
  (if bool_decide (output ∈ directories w) then ret tt else os_makedirs output) ;;;
  model <- lift_tf (load_model path "Relu") ;;
  data <- lift_result (alexnet.load_dataset cifar100_load_data) ;;
  let '(_, (x_test, y_test)) := data in
  index <- randint 0 (length x_test) ;;
  x <- lift_result (getitem x_test index) ;;
  p <- lift_result (alexnet.preprocess_image picture cv2_resize_image x 224 224) ;;
  img <- lift_heap (np_array1 p) ;;
  img0 <- lift_heap (np_getitem0 img) ;;
  cv2_imwrite (os_path_join path (String.append (str index) ".jpg")) img0 ;;;
  m <- model_object model ;;
  img_b <- lift_heap (contents img) ;;
  predictions <- lift_result (predict m (as_float img_b)) ;;
  predicted_class <- lift_result (np_argmax_axis1 predictions) ;;
  shown <- lift_result (format_u predicted_class) ;;
  print (String.append "Supplied image was classified as ["
           (String.append shown "] by the model.")) ;;;
  y <- lift_result (getitem y_test index) ;;
  print (String.append "True classification for the image is ["
           (String.append (str y) "].")) ;;;
  let layer_name := "conv2d_5" in
  category_index <- lift_result (getitem predicted_class 0) ;;
  m <- model_object model ;;
  img_b <- lift_heap (contents img) ;;
  heatmap_rows <- lift_result (grad_cam class_score gradient_function m (as_float img_b)
                                 category_index layer_name 224 224) ;;
  heatmap <- lift_heap (np_from_rows heatmap_rows) ;;
  overlay <- lift_heap (overlay_heatmap COLORMAP_JET img heatmap) ;;
  cv2_imwrite (os_path_join output (String.append (str index) "_gradcam.jpg")) overlay ;;;
  img_b <- lift_heap (contents img) ;;
  saliency_values <- lift_tf (guided_backprop saliency_function model (as_float img_b)
                                layer_name path) ;;
  saliency <- lift_heap (alloc (FloatBuf saliency_values) (shape img)) ;;
  normalized <- lift_heap (normalize_image sqrt image_dim_ordering saliency) ;;
  cv2_imwrite (os_path_join output (String.append (str index) "_saliency.jpg")) normalized ;;;
  guided_gradcam <- lift_heap (np_multiply saliency (np_newaxis_last heatmap)) ;;
  normalized <- lift_heap (normalize_image sqrt image_dim_ordering guided_gradcam) ;;
  cv2_imwrite (os_path_join output (String.append (str index) "_guided-gradcam.jpg"))
    normalized.

End Main.

(** ** The script block, lines 196-201 *)

(** [sys.exit(status)] raises [SystemExit]. *)
Definition sys_exit {S A} (status : option Z) : M S A := raise (SystemExit status).

(** [try: body  except KeyboardInterrupt: handler]. *)
Definition try_except_KeyboardInterrupt {S A} (body handler : M S A) : M S A :=
  fun s => match body s with
           | (Raise KeyboardInterrupt, s') => handler s'
           | r => r
           end.

(** [main()] has no [return] statement: it returns [None], which is what
    [sys.exit] receives. *)
Definition script {S} (main : M S unit) : M S unit :=
  try_except_KeyboardInterrupt
    (main ;;; sys_exit None)
    (sys_exit (Some 1%Z)).

(** The exit status the interpreter gives the process for the exception
    that reaches the top level: [SystemExit(None)] is 0, [SystemExit(n)]
    is n, and any other exception prints a traceback and gives 1. *)
Definition exit_status (r : result unit) : Z :=
  match r with
  | Ok _ => 0
  | Raise (SystemExit None) => 0
  | Raise (SystemExit (Some n)) => n
  | Raise _ => 1
  end%Z.

(** Every element of a two-axis array is non-negative. *)
Definition nonneg2 (a : list (list Q)) : Prop := Forall (Forall (Qle 0)) a.

(** ** Sample data

    A three-layer model on which the script's layer "conv2d_5" carries
    the Keras ReLU, and the state in which it was loaded from
    "saved_models/keras_alexnet.h5". *)
Definition example_layers : list layer :=
  [ {| layer_name := "conv2d_1"; activation := Some keras_relu |};
    {| layer_name := "conv2d_5"; activation := Some keras_relu |};
    {| layer_name := "activation_1"; activation := Some keras_softmax |} ].

Definition example_state : tf_state :=
  {| gradient_registry := ∅;
     objects := [{| layers := example_layers; relu_gradient := "Relu" |}];
     disk := {["saved_models/keras_alexnet.h5" := example_layers]} |}.

(** A run of the script with its default arguments from "/home/user",
    where the trained model has been saved and "output" does not exist
    yet, on a test set of two 1x1 images; the random generator's next
    output is [draw]. *)
Definition example_world (draw : nat) : world :=
  {| cwd := "/home/user";
     directories := {["/home"; "/home/user"; "/home/user/saved_models"]};
     unwritable := ∅;
     tensorflow := {| gradient_registry := ∅;
                      objects := [];
                      disk := {["saved_models/keras_alexnet.h5" := example_layers]} |};
     arrays := [];
     random_outputs := fun _ => draw;
     random_draws := 0;
     imwrite_calls := [];
     save_weights_calls := [];
     printed := [] |}.

Definition example_x_test : list picture :=
  [ {| pic_shape := [1; 1; 3]%nat; pic_bytes := [10; 20; 30]%Z |};
    {| pic_shape := [1; 1; 3]%nat; pic_bytes := [40; 50; 60]%Z |} ].
Definition example_y_test : list nat := [3; 4]%nat.
Definition example_dataset : dataset := (([], []), (example_x_test, example_y_test)).

(** A saliency tensor of shape (1, 1, 2, 1) with two equal values; its
    variance is 0, and so is the square root of it. *)
Definition example_saliency_heap : heap := [FloatBuf [Fin 3; Fin 3]].
Definition example_saliency : ndarray :=
  {| base := 0; offset := 0; shape := [1; 1; 2; 1]%nat |}.
Definition sqrt_at_zero (q : Q) : Q := 0%Q.

(** A batch of one 1x1 BGR image with bytes 5, 7, 9, and a 1x1 heat map
    with value 1. *)
Definition example_image_heap : heap := [UInt8Buf [5; 7; 9]%Z; FloatBuf [Fin 1]].
Definition example_image : ndarray :=
  {| base := 0; offset := 0; shape := [1; 1; 1; 3]%nat |}.
Definition example_heatmap : ndarray :=
  {| base := 1; offset := 0; shape := [1; 1]%nat |}.

(** Activations and gradients of a 2x2 layer with one channel, and the
    functions that return them whatever the model and the image. *)
Definition example_model : keras_model :=
  {| layers := example_layers; relu_gradient := "Relu" |}.
Definition example_activations : tensor3 :=
  {| t_rows := 2; t_cols := 2; t_chans := 1; t_data := [1; 2; 3; 4]%Q |}.
Definition example_gradients : tensor3 :=
  {| t_rows := 2; t_cols := 2; t_chans := 1; t_data := [1; 1; 1; 1]%Q |}.
Definition zero_gradients : tensor3 :=
  {| t_rows := 2; t_cols := 2; t_chans := 1; t_data := [0; 0; 0; 0]%Q |}.
Definition example_class_score (m : keras_model) (c : nat) : result unit := Ok tt.
Definition example_gradient_function
    (m : keras_model) (c : nat) (l : string) (image : list npfloat)
    : result (tensor3 * tensor3) :=
  Ok (example_activations, example_gradients).
Definition zero_gradient_function
    (m : keras_model) (c : nat) (l : string) (image : list npfloat)
    : result (tensor3 * tensor3) :=
  Ok (example_activations, zero_gradients).



(** ** Stating what a computation leaves alone *)

(** [h'] has every location of [h], with the same contents except
    possibly at [b]. *)
Definition frame_of (b : nat) (h h' : heap) : Prop :=
  (length h <= length h')%nat /\
  forall l, (l < length h)%nat -> l <> b -> h' !! l = h !! l.

(** An array that lives at [b] or was allocated after [h]. *)
Definition own_array (b : nat) (h : heap) (a : ndarray) : Prop :=
  base a = b \/ (length h <= base a)%nat.

(** Started in any heap that extends [h] outside [b], the computation
    ends, normally or not, in such a heap, and a value it returns
    satisfies [post]. *)
Definition writes_only {A} (b : nat) (h : heap) (m : M heap A) (post : A -> Prop)
    : Prop :=
  forall h1 r h2, frame_of b h h1 -> m h1 = (r, h2) ->
    frame_of b h h2 /\ forall a, r = Ok a -> post a.

(** ** Stating what an array holds *)

(** In heap [h] the array [a] sees [k] floating elements, respectively
    [k] bytes. *)
Definition float_view (a : ndarray) (k : nat) (h : heap) : Prop :=
  exists l, h !! base a = Some (FloatBuf l) /\
            length (window (offset a) (np_size a) l) = k.

Definition uint8_view (a : ndarray) (k : nat) (h : heap) : Prop :=
  exists l, h !! base a = Some (UInt8Buf l) /\
            length (window (offset a) (np_size a) l) = k /\
            Forall (fun z => (0 <= z <= 255)%Z) (window (offset a) (np_size a) l).

(** A channels-first tensor of shape (3, 1, 2). *)
Definition example_th_heap : heap :=
  [FloatBuf [Fin 0; Fin 1; Fin 2; Fin 3; Fin 4; Fin 5]].
Definition example_th_image : ndarray :=
  {| base := 0; offset := 0; shape := [3; 1; 2]%nat |}.

(** A colour table to run [overlay_heatmap] with: blue fixed, green
    rising with the grey level, red falling. *)
Definition example_colormap (v : Z) : Z * Z * Z := (128, v, 255 - v)%Z.



(** A data set of five images (here just numbered) with their labels,
    and a resize that leaves the numbered images as they are. *)
Definition example_x_data : list nat := [10; 11; 12; 13; 14]%nat.
Definition example_y_data : list nat := [0; 1; 2; 0; 1]%nat.
Definition example_resize (img : nat) (dsize : nat * nat) : result nat := Ok img.

(** Two floating values that compare equal, or are both NaN. *)
Definition same_value (a b : npfloat) : Prop :=
  match a, b with
  | Fin p, Fin q => (p == q)%Q
  | PInf, PInf | NInf, NInf | NaN, NaN => True
  | _, _ => False
  end.

(** A value that is not below zero: a finite one from 0 up, +inf, or NaN. *)
Definition not_negative (v : npfloat) : Prop :=
  match v with
  | Fin q => (0 <= q)%Q
  | PInf | NaN => True
  | NInf => False
  end.

Definition is_finite (v : npfloat) : Prop :=
  match v with
  | Fin _ => True
  | _ => False
  end.

(** A batch of one 2x2 BGR image and a 3x3 heat map: their shapes do
    not broadcast. *)
Definition example_mismatch_heap : heap :=
  [UInt8Buf [5; 7; 9; 11; 13; 15; 17; 19; 21; 23; 25; 27]%Z;
   FloatBuf [Fin 0; Fin 0; Fin 0; Fin 0; Fin 1; Fin 0; Fin 0; Fin 0; Fin 0]].
Definition example_mismatch_image : ndarray :=
  {| base := 0; offset := 0; shape := [1; 2; 2; 3]%nat |}.
Definition example_mismatch_heatmap : ndarray :=
  {| base := 1; offset := 0; shape := [3; 3]%nat |}.

(** ** Stating what a run of the script does to the process *)

(** [w'] is [w] with more directories and nothing else changed. *)
Definition only_directories (w w' : world) : Prop :=
  w' = set_directories (directories w') w /\ directories w ⊆ directories w'.

(** Every run of [m] relates the state it starts in to the state it
    ends in by [R], whatever the outcome. *)
Definition steps_in {A} (R : world -> world -> Prop) (m : M world A) : Prop :=
  forall w r w', m w = (r, w') -> R w w'.

(** Every run of [m] hands to [cv2.imwrite] the first [k] of [targets],
    in order, and nothing else; a run that returns has gone through all
    of them. *)
Definition writes_targets {A} (targets : list string) (m : M world A) : Prop :=
  forall w r w', m w = (r, w') ->
    exists k, (k <= length targets)%nat /\
      imwrite_calls w' = imwrite_calls w ++ take k targets /\
      (forall a, r = Ok a -> k = length targets).


(** OpenCV's resize on an image of one pixel: every pixel of the
    result is that pixel. *)
Definition example_resize_picture (x : picture) (dsize : nat * nat) : result picture :=
  Ok {| pic_shape := [dsize.2; dsize.1; 3%nat];
        pic_bytes := concat (replicate (dsize.1 * dsize.2) (pic_bytes x)) |}.

(** Library stand-ins for a run: a writer that accepts every image, a
    classifier that answers class 9 of 10 for every image, and a
    saliency function that returns the image. *)
Definition example_imwrite_error (p : string) (sh : list nat) (b : buffer)
    : option exn := None.
Definition example_predict (m : keras_model) (image : list npfloat)
    : result (list (list Q)) :=
  Ok [[0; 0; 0; 0; 0; 0; 0; 0; 0; 1]%Q].
Definition example_saliency_function (reg : registry) (m : keras_model)
    (layer : string) (image : list npfloat) : list npfloat := image.

(** Neither the directories nor the images handed to [cv2.imwrite]
    change. *)
Definition quiet (w w' : world) : Prop :=
  directories w' = directories w /\ imwrite_calls w' = imwrite_calls w.



(** * Properties *)

(** ** The gradient rule *)

Lemma Qltb_lt (x y : Q) : Qltb x y = true <-> (x < y)%Q.
Proof.
  unfold Qltb. rewrite negb_true_iff. split.
  - intros H. apply Qnot_le_lt. intros Hle.
    apply Qle_bool_iff in Hle. congruence.
  - intros H. destruct (Qle_bool y x) eqn:E; [|reflexivity].
    apply Qle_bool_iff in E. exfalso. exact (Qlt_not_le _ _ H E).
Qed.

Lemma Qltb_nlt (x y : Q) : Qltb x y = false <-> ~ (x < y)%Q.
Proof.
  rewrite <- Qltb_lt. destruct (Qltb x y); split; congruence.
Qed.

Lemma fgt0_Fin (q : Q) : fgt0 (Fin q) = true <-> (0 < q)%Q.
Proof. apply Qltb_lt. Qed.

Lemma guided_value_pass (grad x : npfloat) :
  fgt0 grad = true -> fgt0 x = true -> same_value (guided_value grad x) grad.
Proof.
  intros Hg Hx. unfold guided_value. rewrite Hg, Hx.
  destruct grad as [q| | |]; try discriminate; simpl; [ring | exact I].
Qed.

Lemma guided_value_block (q : Q) (x : npfloat) :
  ~ (fgt0 (Fin q) = true /\ fgt0 x = true) ->
  same_value (guided_value (Fin q) x) (Fin 0).
Proof.
  intros H. unfold guided_value.
  destruct (fgt0 (Fin q)) eqn:Eg; destruct (fgt0 x) eqn:Ex; simpl; try ring.
  tauto.
Qed.

Lemma guided_value_not_a_number (grad x : npfloat) :
  (grad = PInf /\ fgt0 x = false) \/ grad = NInf \/ grad = NaN ->
  guided_value grad x = NaN.
Proof.
  unfold guided_value. intros [[-> Hx]|[->| ->]]; [rewrite Hx| |]; reflexivity.
Qed.

Lemma register_guided_backprop_fresh (reg : registry) :
  reg !! "GuidedBackProp" = None ->
  register_guided_backprop reg
  = (Ok tt, <["GuidedBackProp" := _GuidedBackProp]> reg).
Proof.
  intros H. unfold register_guided_backprop, RegisterGradient, bind, get, put.
  rewrite H. cbn. rewrite H. reflexivity.
Qed.

Lemma register_guided_backprop_present (reg : registry) :
  is_Some (reg !! "GuidedBackProp") ->
  register_guided_backprop reg = (Ok tt, reg).
Proof.
  intros [f Hf]. unfold register_guided_backprop, bind, get, ret.
  rewrite Hf. reflexivity.
Qed.

(** C2: the rule registered under "GuidedBackProp", applied to an
    incoming gradient and the first input of the operation, returns at
    every position the gradient value when both the gradient value and
    the input value are positive; for a finite gradient value it
    returns 0 for every other combination; for a gradient of +inf on an
    input that is not positive, and for a gradient of -inf or NaN, the
    product with the zero mask is NaN. *)
Theorem guided_backprop_rule_signs
    (reg reg' : registry) (rule : gradient_rule) (op : operation)
    (xs grads : list npfloat) (rest : list (list npfloat)) (i : nat)
    (g x : npfloat) :
  reg !! "GuidedBackProp" = None ->
  register_guided_backprop reg = (Ok tt, reg') ->
  reg' !! "GuidedBackProp" = Some rule ->
  op_inputs op = xs :: rest ->
  grads !! i = Some g ->
  xs !! i = Some x ->
  exists out v,
    rule op grads = Ok out /\ out !! i = Some v /\
    (fgt0 g = true -> fgt0 x = true -> same_value v g) /\
    (forall q, g = Fin q -> ~ ((0 < q)%Q /\ fgt0 x = true) -> same_value v (Fin 0)) /\
    ((g = PInf /\ fgt0 x = false) \/ g = NInf \/ g = NaN -> v = NaN).
Proof.
  intros Hfresh Hreg Hrule Hop Hg Hx.
  rewrite (register_guided_backprop_fresh _ Hfresh) in Hreg.
  injection Hreg as <-.
  rewrite lookup_insert_eq in Hrule. injection Hrule as <-.
  exists (zip_with guided_value grads xs), (guided_value g x).
  split; [unfold _GuidedBackProp; rewrite Hop; reflexivity|].
  split.
  - rewrite lookup_zip_with, Hg. simpl. rewrite Hx. reflexivity.
  - split; [apply guided_value_pass|]. split.
    + intros q -> H. apply guided_value_block. rewrite fgt0_Fin. exact H.
    + apply guided_value_not_a_number.
Qed.

Lemma guided_backprop_rule_signs_witness :
  exists out v,
    _GuidedBackProp {| op_inputs := [[Fin 1; Fin (-1); Fin 1; Fin (-1)]] |}
      [Fin 2; Fin 2; Fin (-2); Fin (-2)] = Ok out /\
    out !! 1%nat = Some v /\
    (fgt0 (Fin 2) = true -> fgt0 (Fin (-1)) = true -> same_value v (Fin 2)) /\
    (forall q, Fin 2 = Fin q -> ~ ((0 < q)%Q /\ fgt0 (Fin (-1)) = true) ->
       same_value v (Fin 0)) /\
    ((Fin 2 = PInf /\ fgt0 (Fin (-1)) = false) \/ Fin 2 = NInf \/ Fin 2 = NaN ->
       v = NaN).
Proof.
  apply (guided_backprop_rule_signs ∅ (<["GuidedBackProp" := _GuidedBackProp]> ∅)
           _GuidedBackProp {| op_inputs := [[Fin 1; Fin (-1); Fin 1; Fin (-1)]] |}
           [Fin 1; Fin (-1); Fin 1; Fin (-1)] [Fin 2; Fin 2; Fin (-2); Fin (-2)]
           [] 1 (Fin 2) (Fin (-1)));
    reflexivity.
Defined.

(** The four sign combinations of finite values, evaluated. *)
Example guided_value_four_signs :
  _GuidedBackProp {| op_inputs := [[Fin 1; Fin (-1); Fin 1; Fin (-1)]] |}
    [Fin 2; Fin 2; Fin (-2); Fin (-2)]
  = Ok [Fin (2 * 1 * 1); Fin (2 * 1 * 0); Fin (-2 * 0 * 1); Fin (-2 * 0 * 0)].
Proof. reflexivity. Qed.

(** An infinite gradient on an input that is not positive: the rule
    registered by [guided_backprop] returns NaN where the sign table
    has 0. *)
Lemma guided_backprop_rule_infinite_gradient :
  exists rule,
    (register_guided_backprop ∅).2 !! "GuidedBackProp" = Some rule /\
    fgt0 PInf = true /\ fgt0 (Fin (-1)) = false /\
    rule {| op_inputs := [[Fin (-1)]] |} [PInf] = Ok [NaN].
Proof. exists _GuidedBackProp. repeat split. Qed.

(** ** The gradient registry *)

Lemma repeat_registration_present (n : nat) (reg : registry) :
  is_Some (reg !! "GuidedBackProp") ->
  repeat_registration n reg = (Ok tt, reg).
Proof.
  intros H. induction n as [|n IH]; [reflexivity|].
  simpl. unfold bind at 1.
  rewrite (register_guided_backprop_present _ H). exact IH.
Qed.

Lemma register_guided_backprop_registers (reg : registry) :
  is_Some ((register_guided_backprop reg).2 !! "GuidedBackProp").
Proof.
  destruct (reg !! "GuidedBackProp") as [f|] eqn:E.
  - rewrite register_guided_backprop_present by eauto. simpl. eauto.
  - rewrite register_guided_backprop_fresh by done. simpl.
    rewrite lookup_insert_eq. eauto.
Qed.

Lemma register_guided_backprop_ok (reg : registry) :
  (register_guided_backprop reg).1 = Ok tt.
Proof.
  destruct (reg !! "GuidedBackProp") as [f|] eqn:E.
  - rewrite register_guided_backprop_present by eauto. reflexivity.
  - rewrite register_guided_backprop_fresh by done. reflexivity.
Qed.

(** C4: running the registration path of [guided_backprop] any number
    of times (at least once) never raises and leaves the registry as
    the first run left it: one rule under "GuidedBackProp", every other
    name untouched, one entry more than before when the name was free;
    a further run finds the name and changes nothing. *)
Theorem registration_idempotent (n : nat) (reg : registry) :
  (0 < n)%nat ->
  exists reg',
    repeat_registration n reg = (Ok tt, reg') /\
    register_guided_backprop reg = (Ok tt, reg') /\
    is_Some (reg' !! "GuidedBackProp") /\
    (forall name, name <> "GuidedBackProp" -> reg' !! name = reg !! name) /\
    (reg !! "GuidedBackProp" = None ->
       reg' !! "GuidedBackProp" = Some _GuidedBackProp /\
       size reg' = S (size reg)) /\
    (is_Some (reg !! "GuidedBackProp") -> reg' = reg) /\
    register_guided_backprop reg' = (Ok tt, reg').
Proof.
  intros Hn. destruct n as [|n]; [lia|].
  exists (register_guided_backprop reg).2.
  pose proof (register_guided_backprop_registers reg) as Hin.
  pose proof (register_guided_backprop_ok reg) as Hok.
  destruct (register_guided_backprop reg) as [r reg'] eqn:E.
  simpl in Hin, Hok. subst r. simpl.
  split.
  { unfold bind at 1. rewrite E. apply repeat_registration_present, Hin. }
  split; [reflexivity|]. split; [exact Hin|].
  destruct (reg !! "GuidedBackProp") as [f|] eqn:Ereg.
  - rewrite register_guided_backprop_present in E by eauto.
    injection E as <-.
    repeat split; try done.
    apply register_guided_backprop_present. eauto.
  - rewrite register_guided_backprop_fresh in E by done.
    injection E as <-.
    split; [intros name Hne; by rewrite lookup_insert_ne|].
    split; [intros _; split; [apply lookup_insert_eq | by apply map_size_insert_None]|].
    split; [intros [? ?]; congruence|].
    apply register_guided_backprop_present. rewrite lookup_insert_eq. eauto.
Qed.

Lemma registration_idempotent_witness :
  exists reg',
    repeat_registration 3 ∅ = (Ok tt, reg') /\
    register_guided_backprop ∅ = (Ok tt, reg') /\
    is_Some (reg' !! "GuidedBackProp") /\
    (forall name, name <> "GuidedBackProp" -> reg' !! name = (∅ : registry) !! name) /\
    ((∅ : registry) !! "GuidedBackProp" = None ->
       reg' !! "GuidedBackProp" = Some _GuidedBackProp /\
       size reg' = S (size (∅ : registry))) /\
    (is_Some ((∅ : registry) !! "GuidedBackProp") -> reg' = ∅) /\
    register_guided_backprop reg' = (Ok tt, reg').
Proof. apply (registration_idempotent 3 ∅). lia. Defined.

(** Registering twice without the guard is the error the guard avoids. *)
Example unguarded_second_registration_raises :
  (RegisterGradient "GuidedBackProp" _GuidedBackProp
     (<["GuidedBackProp" := _GuidedBackProp]> ∅)).1
  = Raise (KeyError "GuidedBackProp").
Proof. reflexivity. Qed.

(** ** The guided model and the original model *)




Lemma get_layer_fresh_model (ls : list layer) (g name : string) (l : layer) :
  get_layer {| layers := ls; relu_gradient := "Relu" |} name = Ok l ->
  get_layer {| layers := ls; relu_gradient := g |} name = Ok l.
Proof. unfold get_layer. simpl. auto. Qed.

Section GuidedBackpropFacts.

Variable saliency_function :
  registry -> keras_model -> string -> list npfloat -> list npfloat.

(** What a successful [guided_backprop] leaves behind. *)
Lemma guided_backprop_run (st : tf_state) (model : nat) (m : keras_model)
    (image : list npfloat) (target_layer path : string) (ls : list layer) (l : layer) :
  objects st !! model = Some m ->
  disk st !! path = Some ls ->
  get_layer {| layers := ls; relu_gradient := "Relu" |} target_layer = Ok l ->
  guided_backprop saliency_function model image target_layer path st
  = (Ok (saliency_function (register_guided_backprop (gradient_registry st)).2
           {| layers := ls; relu_gradient := "GuidedBackProp" |} target_layer image),
     {| gradient_registry := (register_guided_backprop (gradient_registry st)).2;
        objects := <[model := {| layers := replace_relu_layers (layers m);
                                 relu_gradient := relu_gradient m |}]> (objects st)
                   ++ [{| layers := ls; relu_gradient := "GuidedBackProp" |}];
        disk := disk st |}).
Proof.
  intros Hm Hdisk Hlayer.
  apply (get_layer_fresh_model _ "GuidedBackProp") in Hlayer.
  pose proof (register_guided_backprop_ok (gradient_registry st)) as Hok.
  unfold guided_backprop, with_registry, bind at 1.
  destruct (register_guided_backprop (gradient_registry st)) as [r reg'].
  simpl in Hok. subst r. simpl.
  unfold modify_backprop, load_model, compile_saliency_function, bind, get, put, ret.
  simpl. rewrite Hm. simpl. rewrite Hdisk. simpl.
  rewrite length_insert.
  rewrite lookup_app_r by (rewrite length_insert; lia).
  rewrite length_insert, Nat.sub_diag. simpl.
  rewrite Hlayer. reflexivity.
Qed.

End GuidedBackpropFacts.




(** ** The script block *)

(** C9: a [KeyboardInterrupt] raised by [main] ends the process with
    status 1, a [main] that returns ends it with status 0, and every
    other exception leaves the script block as it was raised. *)
Theorem script_exit_behaviour {S : Type} (main : M S unit) (s s' : S) :
  (main s = (Raise KeyboardInterrupt, s') ->
     script main s = (Raise (SystemExit (Some 1%Z)), s') /\
     exit_status (script main s).1 = 1%Z) /\
  (main s = (Ok tt, s') ->
     script main s = (Raise (SystemExit None), s') /\
     exit_status (script main s).1 = 0%Z) /\
  (forall e, e <> KeyboardInterrupt -> main s = (Raise e, s') ->
     script main s = (Raise e, s')).
Proof.
  unfold script, try_except_KeyboardInterrupt, bind, sys_exit, raise.
  repeat split; intros.
  - rewrite H. reflexivity.
  - rewrite H. reflexivity.
  - rewrite H. reflexivity.
  - rewrite H. reflexivity.
  - rewrite H0. destruct e; congruence.
Qed.

Lemma script_exit_behaviour_witness :
  (script (raise KeyboardInterrupt) tt = (Raise (SystemExit (Some 1%Z)), tt) /\
   exit_status (script (raise KeyboardInterrupt) tt).1 = 1%Z) /\
  (script (ret tt) tt = (Raise (SystemExit None), tt) /\
   exit_status (script (ret tt) tt).1 = 0%Z) /\
  script (raise OSError) tt = (Raise OSError, tt).
Proof.
  split; [|split].
  - apply (proj1 (script_exit_behaviour (raise KeyboardInterrupt) tt tt)).
    reflexivity.
  - apply (proj1 (proj2 (script_exit_behaviour (ret tt) tt tt))).
    reflexivity.
  - apply (proj2 (proj2 (script_exit_behaviour (raise OSError) tt tt)) OSError);
      [discriminate | reflexivity].
Defined.

(** An interrupted run and a completed run, evaluated. *)
Example script_interrupted :
  script (raise KeyboardInterrupt) tt = (Raise (SystemExit (Some 1%Z)), tt).
Proof. reflexivity. Qed.

Example script_completed :
  script (ret tt) tt = (Raise (SystemExit None), tt).
Proof. reflexivity. Qed.

Example script_other_error :
  script (raise OSError) tt = (Raise OSError, tt).
Proof. reflexivity. Qed.

(** ** numpy arrays: what each step does to the heap *)



Lemma bind_ok {S A B} (m : M S A) (k : A -> M S B) (s s' : S) (a : A) :
  m s = (Ok a, s') -> bind m k s = k a s'.
Proof. unfold bind. by intros ->. Qed.

Lemma bind_raise {S A B} (m : M S A) (k : A -> M S B) (s s' : S) (e : exn) :
  m s = (Raise e, s') -> bind m k s = (Raise e, s').
Proof. unfold bind. by intros ->. Qed.

Lemma contents_state (a : ndarray) (h h' : heap) (r : result buffer) :
  contents a h = (r, h') -> h' = h.
Proof.
  unfold contents, bind, get, ret, raise.
  destruct (h !! base a); intros [= _ <-]; reflexivity.
Qed.

Lemma contents_ok (a : ndarray) (h : heap) (b : buffer) :
  h !! base a = Some b -> contents a h = (Ok (view a b), h).
Proof. intros H. unfold contents, bind, get, ret. by rewrite H. Qed.

Lemma alloc_spec (b : buffer) (sh : list nat) (h : heap) :
  alloc b sh h = (Ok {| base := length h; offset := 0; shape := sh |}, h ++ [b]).
Proof. reflexivity. Qed.

Lemma inplace_float_inv (f : npfloat -> npfloat) (a : ndarray) (h h' : heap) (u : unit) :
  inplace_float f a h = (Ok u, h') ->
  exists l, h !! base a = Some (FloatBuf l) /\ length h' = length h.
Proof.
  unfold inplace_float, bind, get, put, raise.
  destruct (h !! base a) as [[l|l]|]; [|discriminate..].
  intros [= _ <-]. exists l. by rewrite length_insert.
Qed.


Lemma lookup_app_new {A} (l : list A) (x : A) : (l ++ [x]) !! length l = Some x.
Proof. rewrite lookup_app_r by lia. by rewrite Nat.sub_diag. Qed.

Lemma inplace_float_ok (f : npfloat -> npfloat) (a : ndarray) (h : heap)
    (l : list npfloat) :
  h !! base a = Some (FloatBuf l) ->
  inplace_float f a h
  = (Ok tt, <[base a := FloatBuf (splice (offset a)
                                    (map f (window (offset a) (np_size a) l)) l)]> h).
Proof. intros H. unfold inplace_float, bind, get, put. by rewrite H. Qed.


Lemma map_float_ok (f : npfloat -> npfloat) (a : ndarray) (h : heap) (b : buffer) :
  h !! base a = Some b ->
  map_float f a h
  = (Ok {| base := length h; offset := 0; shape := shape a |},
     h ++ [FloatBuf (map f (as_float (view a b)))]).
Proof.
  intros H. unfold map_float.
  rewrite (bind_ok _ _ _ _ _ (contents_ok _ _ _ H)). apply alloc_spec.
Qed.

Lemma astype_uint8_ok (a : ndarray) (h : heap) (b : buffer) :
  h !! base a = Some b ->
  astype_uint8 a h
  = (Ok {| base := length h; offset := 0; shape := shape a |},
     h ++ [UInt8Buf (match view a b with
                     | FloatBuf l => map to_uint8 l
                     | UInt8Buf l => l
                     end)]).
Proof.
  intros H. unfold astype_uint8.
  rewrite (bind_ok _ _ _ _ _ (contents_ok _ _ _ H)). apply alloc_spec.
Qed.

(** A clipped value is NaN or lies between the bounds. *)
Lemma fclip_range (lo hi : Q) (v : npfloat) :
  (lo <= hi)%Q ->
  fclip lo hi v = NaN \/ exists q, fclip lo hi v = Fin q /\ (lo <= q <= hi)%Q.
Proof.
  intros Hle. unfold fclip. destruct v as [q| | |]; simpl; [| | |by left].
  - right. eexists; split; [reflexivity|]. split.
    + apply Q.min_glb; [apply Q.le_max_r | exact Hle].
    + apply Q.le_min_r.
  - right. exists hi. split; [reflexivity|]. split; [exact Hle | apply Qle_refl].
  - right. eexists; split; [reflexivity|]. split.
    + apply Q.min_glb; [apply Qle_refl | exact Hle].
    + apply Q.le_min_r.
Qed.

Lemma to_uint8_range (v : npfloat) : (0 <= to_uint8 v <= 255)%Z.
Proof.
  destruct v; simpl; try lia.
  pose proof (Z.mod_pos_bound (Qtrunc q) 256 ltac:(lia)). lia.
Qed.

Lemma Qtrunc_range (q : Q) : (0 <= q <= 255)%Q -> (0 <= Qtrunc q <= 255)%Z.
Proof.
  intros [H0 H255]. unfold Qtrunc.
  assert (Qltb q 0 = false) as -> by (apply Qltb_nlt; apply Qle_not_lt; exact H0).
  split.
  - change 0%Z with (Qfloor 0). by apply Qfloor_resp_le.
  - change 255%Z with (Qfloor 255). by apply Qfloor_resp_le.
Qed.

(** After the last clip the cast to [uint8] truncates without wrapping. *)
Lemma to_uint8_clipped (v : npfloat) :
  to_uint8 (fclip 0 255 v)
  = match fclip 0 255 v with Fin q => Qtrunc q | _ => 0%Z end.
Proof.
  destruct (fclip_range 0 255 v ltac:(done)) as [->|(q & -> & Hq)]; [reflexivity|].
  simpl. apply Z.mod_small. pose proof (Qtrunc_range q Hq). lia.
Qed.

(** ** [normalize_image] *)

Ltac heap_lookup :=
  first [ eassumption
        | apply lookup_app_new
        | apply list_lookup_insert_eq;
          repeat (rewrite length_insert || rewrite length_app); simpl; lia ].

Section NormalizeImageFacts.

Variable sqrt : Q -> Q.
Variable image_dim_ordering : string.

Lemma x_mean_ok (x : ndarray) (h : heap) (b : buffer) :
  h !! base x = Some b ->
  x_mean x h = (Ok (np_mean (as_float (view x b))), h).
Proof.
  intros H. unfold x_mean. by rewrite (bind_ok _ _ _ _ _ (contents_ok _ _ _ H)).
Qed.

Lemma x_std_ok (x : ndarray) (h : heap) (b : buffer) :
  h !! base x = Some b ->
  x_std sqrt x h = (Ok (np_std sqrt (as_float (view x b))), h).
Proof.
  intros H. unfold x_std. by rewrite (bind_ok _ _ _ _ _ (contents_ok _ _ _ H)).
Qed.




(** On a floating array, under the "tf" ordering, the call returns. *)
Lemma normalize_image_returns (x : ndarray) (h : heap) (l : list npfloat) :
  h !! base x = Some (FloatBuf l) ->
  image_dim_ordering <> "th" ->
  exists y h', normalize_image sqrt image_dim_ordering x h = (Ok y, h').
Proof.
  intros Hx Hord. unfold normalize_image.
  set (x' := if (3 <? np_ndim x)%nat then np_squeeze x else x).
  assert (base x' = base x) as Hb by (subst x'; by destruct (3 <? np_ndim x)%nat).
  clearbody x'. rewrite <- Hb in Hx.
  apply String.eqb_neq in Hord. rewrite Hord.
  pose proof (lookup_lt_Some _ _ _ Hx) as Hlt.
  erewrite bind_ok by (apply x_mean_ok; heap_lookup).
  erewrite bind_ok by (apply inplace_float_ok; heap_lookup).
  erewrite bind_ok by (apply x_std_ok; heap_lookup).
  erewrite bind_ok by (apply inplace_float_ok; heap_lookup).
  erewrite bind_ok by (apply inplace_float_ok; heap_lookup).
  erewrite bind_ok by (apply inplace_float_ok; heap_lookup).
  erewrite bind_ok by (apply map_float_ok; heap_lookup).
  erewrite bind_ok by (apply inplace_float_ok; heap_lookup).
  erewrite bind_ok by reflexivity.
  erewrite bind_ok by (apply map_float_ok; heap_lookup).
  erewrite astype_uint8_ok by heap_lookup.
  eauto.
Qed.

End NormalizeImageFacts.




(** ** The compositor writes to its arguments *)

(** C5 on the sample arrays: after [normalize_image(saliency)] the
    caller's saliency buffer holds 1/2, 1/2 instead of 3, 3 (the update
    went through the squeezed view), and after
    [overlay_heatmap(image, heatmap)] the caller's image holds 0, 2, 4
    instead of 5, 7, 9, whatever the colour table. *)
Theorem compositor_overwrites_caller_arrays :
  (normalize_image sqrt_at_zero "tf" example_saliency example_saliency_heap).1
  = Ok {| base := 3; offset := 0; shape := [2]%nat |} /\
  (normalize_image sqrt_at_zero "tf" example_saliency example_saliency_heap).2
    !! base example_saliency
  = Some (FloatBuf [Fin (20 # 40); Fin (20 # 40)]) /\
  example_saliency_heap !! base example_saliency = Some (FloatBuf [Fin 3; Fin 3]) /\
  (forall COLORMAP_JET : Z -> Z * Z * Z,
     (overlay_heatmap COLORMAP_JET example_image example_heatmap example_image_heap).1
     = Ok {| base := 7; offset := 0; shape := [1; 1; 3]%nat |} /\
     (overlay_heatmap COLORMAP_JET example_image example_heatmap example_image_heap).2
       !! base example_image
     = Some (UInt8Buf [0; 2; 4]%Z)) /\
  example_image_heap !! base example_image = Some (UInt8Buf [5; 7; 9]%Z).
Proof.
  split; [vm_compute; reflexivity|].
  split; [vm_compute; reflexivity|].
  split; [reflexivity|].
  split; [|reflexivity].
  intros jet. split; vm_compute; reflexivity.
Qed.

(** In general: the in-place steps of [normalize_image] replace the
    buffer the argument points to. *)
Lemma inplace_float_writes_buffer (f : npfloat -> npfloat) (a : ndarray)
    (h : heap) (l : list npfloat) :
  h !! base a = Some (FloatBuf l) ->
  (inplace_float f a h).2 !! base a
  = Some (FloatBuf (splice (offset a) (map f (window (offset a) (np_size a) l)) l)).
Proof.
  intros H. rewrite (inplace_float_ok f a h l H). simpl.
  apply list_lookup_insert_eq. by apply lookup_lt_Some in H.
Qed.

(** ** [cv2.resize] *)

Lemma linear_tap_weight (src_len dst_len d : nat) :
  (0 <= (linear_tap src_len dst_len d).2 <= 1)%Q.
Proof.
  unfold linear_tap.
  set (f := ((Qnat d + (1 # 2)) * (Qnat src_len / Qnat dst_len) - (1 # 2))%Q).
  clearbody f.
  destruct (Qfloor f <? 0)%Z; [simpl; lra|].
  destruct (Z.of_nat src_len - 1 <=? Qfloor f)%Z; [simpl; lra|].
  simpl. pose proof (Qfloor_le f) as Hlo. pose proof (Qlt_floor f) as Hhi.
  rewrite inject_Z_plus in Hhi. change (inject_Z 1) with 1%Q in Hhi. lra.
Qed.

Lemma pixel_nonneg (src : list (list Q)) (r c : nat) :
  nonneg2 src -> (0 <= pixel src r c)%Q.
Proof.
  intros H. unfold pixel.
  assert (Forall (Qle 0) (nth r src [])) as Hrow.
  { destruct (nth_in_or_default r src []) as [Hin| ->]; [|constructor].
    eapply Forall_forall in H; [exact H|]. by apply list_elem_of_In. }
  destruct (nth_in_or_default c (nth r src []) 0%Q) as [Hin| ->]; [|lra].
  eapply Forall_forall in Hrow; [exact Hrow|]. by apply list_elem_of_In.
Qed.

Lemma convex_nonneg (f a b : Q) :
  (0 <= f <= 1)%Q -> (0 <= a)%Q -> (0 <= b)%Q -> (0 <= (1 - f) * a + f * b)%Q.
Proof.
  intros [Hf0 Hf1] Ha Hb.
  assert (0 <= (1 - f) * a)%Q by (apply Qmult_le_0_compat; lra).
  assert (0 <= f * b)%Q by (apply Qmult_le_0_compat; lra).
  lra.
Qed.

Lemma bilinear_nonneg (src : list (list Q)) (rows cols dst_rows dst_cols r c : nat) :
  nonneg2 src -> (0 <= bilinear src rows cols dst_rows dst_cols r c)%Q.
Proof.
  intros H. unfold bilinear.
  pose proof (linear_tap_weight rows dst_rows r) as Hy.
  pose proof (linear_tap_weight cols dst_cols c) as Hx.
  destruct (linear_tap rows dst_rows r) as [sy fy].
  destruct (linear_tap cols dst_cols c) as [sx fx]. simpl in Hx, Hy.
  apply convex_nonneg; [exact Hy | |];
    apply convex_nonneg; try exact Hx; by apply pixel_nonneg.
Qed.

(** The result of [cv2.resize(src, (w, h))] has [h] rows of [w] values:
    the first component of [dsize] counts columns. *)
Lemma cv2_resize_inv (rows cols : nat) (src dst : list (list Q)) (w h : nat) :
  cv2_resize rows cols src (w, h) = Ok dst ->
  (0 < w)%nat /\ (0 < h)%nat /\
  length dst = h /\ Forall (fun row => length row = w) dst /\
  (nonneg2 src -> nonneg2 dst).
Proof.
  unfold cv2_resize.
  destruct (rows =? 0)%nat eqn:E1; [discriminate|].
  destruct (cols =? 0)%nat eqn:E2; [discriminate|].
  destruct (w =? 0)%nat eqn:E3; [discriminate|].
  destruct (h =? 0)%nat eqn:E4; [discriminate|]. simpl.
  intros [= <-].
  apply Nat.eqb_neq in E3, E4.
  split; [lia|]. split; [lia|].
  split; [by rewrite length_fmap, length_seq|].
  split.
  - apply Forall_fmap, Forall_forall. intros r _. simpl.
    by rewrite length_fmap, length_seq.
  - intros Hsrc. apply Forall_fmap, Forall_forall. intros r _. simpl.
    apply Forall_fmap, Forall_forall. intros c _. simpl.
    by apply bilinear_nonneg.
Qed.

Lemma shape2_of_rows {A} (a : list (list A)) (w h : nat) :
  (0 < h)%nat -> length a = h -> Forall (fun row => length row = w) a ->
  shape2 a = (h, w).
Proof.
  intros Hh Hlen Hrows. unfold shape2. rewrite Hlen. f_equal.
  destruct a as [|row a]; [simpl in Hlen; lia|].
  simpl. by inversion Hrows.
Qed.

(** ** Grad-CAM *)

Lemma foldr_Qmax_ge (v : Q) (vs : list Q) :
  (v <= foldr Qmax v vs)%Q /\ Forall (fun x => (x <= foldr Qmax v vs)%Q) vs.
Proof.
  induction vs as [|x vs [IHv IHvs]]; simpl.
  - split; [apply Qle_refl | constructor].
  - split; [eapply Qle_trans; [exact IHv | apply Q.le_max_r]|].
    constructor; [apply Q.le_max_l|].
    eapply Forall_impl; [exact IHvs|]. simpl. intros y Hy.
    eapply Qle_trans; [exact Hy | apply Q.le_max_r].
Qed.

Lemma np_max2_spec (a : list (list Q)) (mx : Q) :
  np_max2 a = Ok mx -> Forall (fun x => (x <= mx)%Q) (concat a).
Proof.
  unfold np_max2. destruct (concat a) as [|v vs]; [discriminate|].
  intros [= <-]. destruct (foldr_Qmax_ge v vs). by constructor.
Qed.

Lemma relu_nonneg (cam : list (list Q)) : nonneg2 (map (map (Qmax 0)) cam).
Proof.
  apply Forall_fmap, Forall_forall. intros row _. simpl.
  apply Forall_fmap, Forall_forall. intros v _. simpl. apply Q.le_max_l.
Qed.

(** The last line of [grad_cam] on one element [v] of the resized map
    with maximum [mx]. *)
Lemma heatmap_value (v mx : Q) :
  (0 <= v <= mx)%Q ->
  ((0 < mx)%Q -> exists q, fdiv (Fin v) (Fin mx) = Fin q /\ (0 <= q <= 1)%Q) /\
  ((mx == 0)%Q -> fdiv (Fin v) (Fin mx) = NaN).
Proof.
  intros [Hv Hmx]. simpl. split.
  - intros Hpos.
    destruct (Qeq_bool mx 0) eqn:E; [apply Qeq_bool_iff in E; lra|].
    exists (v / mx)%Q. split; [reflexivity|]. split.
    + apply Qle_shift_div_l; [exact Hpos | lra].
    + apply Qle_shift_div_r; [exact Hpos | lra].
  - intros Hzero. apply Qeq_bool_iff in Hzero as E. rewrite E.
    assert (v == 0)%Q as Hv0 by lra.
    apply Qeq_alt in Hv0. by rewrite Hv0.
Qed.

Section GradCamFacts.

Variable class_score : keras_model -> nat -> result unit.
Variable gradient_function :
  keras_model -> nat -> string -> list npfloat -> result (tensor3 * tensor3).

(** What a call of [grad_cam] that returns has computed: a resized
    map of [width] rows and [height] columns with non-negative values,
    each divided by the maximum of the map, whether or not that
    maximum is 0. *)
Lemma grad_cam_inv (model : keras_model) (image : list npfloat)
    (category_index : nat) (layer_name : string) (height width : nat)
    (heatmap : list (list npfloat)) :
  grad_cam class_score gradient_function model image category_index layer_name height width
  = Ok heatmap ->
  exists cam mx,
    np_max2 cam = Ok mx /\
    heatmap = map (map (fun v => fdiv (Fin v) (Fin mx))) cam /\
    (0 < width)%nat /\ length cam = width /\
    Forall (fun row => length row = height) cam /\
    Forall (Forall (fun v => (0 <= v <= mx)%Q)) cam.
Proof.
  unfold grad_cam.
  destruct (class_score model category_index) as [[]|e]; [|discriminate].
  destruct (get_layer model layer_name) as [l|e]; [|discriminate].
  destruct (gradient_function model category_index layer_name image)
    as [[output grads_val]|e]; [|discriminate].
  destruct (np_dot output (channel_means grads_val)) as [cam0|e]; [|discriminate].
  destruct (cv2_resize _ _ _ _) as [cam|e] eqn:Hresize; [|discriminate].
  destruct (np_max2 cam) as [mx|e] eqn:Hmax; [|discriminate].
  intros [= <-]. exists cam, mx.
  apply cv2_resize_inv in Hresize as (Hh & Hw & Hlen & Hrows & Hnonneg).
  specialize (Hnonneg (relu_nonneg _)).
  apply np_max2_spec in Hmax as Hle.
  repeat split; try done.
  apply Forall_forall. intros row Hrow. apply Forall_forall. intros v Hv.
  split.
  - eapply Forall_forall in Hnonneg; [|exact Hrow].
    eapply Forall_forall in Hnonneg; [exact Hnonneg | exact Hv].
  - eapply Forall_forall in Hle; [exact Hle|].
    apply list_elem_of_In, in_concat. exists row.
    split; by apply list_elem_of_In.
Qed.

(** The heat map has [width] rows and [height] columns. *)
Lemma grad_cam_shape (model : keras_model) (image : list npfloat)
    (category_index : nat) (layer_name : string) (height width : nat)
    (heatmap : list (list npfloat)) :
  grad_cam class_score gradient_function model image category_index layer_name height width
  = Ok heatmap ->
  shape2 heatmap = (width, height).
Proof.
  intros H. apply grad_cam_inv in H as (cam & mx & _ & -> & Hw & Hlen & Hrows & _).
  apply shape2_of_rows; [exact Hw | by rewrite length_map |].
  apply Forall_fmap. eapply Forall_impl; [exact Hrows|]. simpl.
  intros row <-. by rewrite length_map.
Qed.

(** With a positive maximum every value lies in [0, 1]; with maximum
    0 every value is NaN: the division is done all the same. *)
Lemma grad_cam_values (model : keras_model) (image : list npfloat)
    (category_index : nat) (layer_name : string) (height width : nat)
    (heatmap : list (list npfloat)) :
  grad_cam class_score gradient_function model image category_index layer_name height width
  = Ok heatmap ->
  Forall (Forall (fun x => exists q, x = Fin q /\ (0 <= q <= 1)%Q)) heatmap \/
  Forall (Forall (fun x => x = NaN)) heatmap.
Proof.
  intros H. apply grad_cam_inv in H as (cam & mx & Hmax & -> & _ & _ & _ & Hrange).
  assert (0 <= mx)%Q as Hmx.
  { unfold np_max2 in Hmax. destruct (concat cam) as [|v vs] eqn:E; [discriminate|].
    assert (v ∈ concat cam) as Hv by (rewrite E; left).
    apply list_elem_of_In, in_concat in Hv as (row & Hrow & Hv).
    apply list_elem_of_In in Hrow, Hv.
    eapply Forall_forall in Hrange; [|exact Hrow].
    eapply Forall_forall in Hrange; [|exact Hv]. lra. }
  destruct (Qlt_le_dec 0 mx) as [Hpos|Hzero].
  - left. apply Forall_fmap. eapply Forall_impl; [exact Hrange|]. simpl.
    intros row Hrow. apply Forall_fmap. eapply Forall_impl; [exact Hrow|]. simpl.
    intros v Hv. by apply (heatmap_value v mx Hv).
  - right. apply Forall_fmap. eapply Forall_impl; [exact Hrange|]. simpl.
    intros row Hrow. apply Forall_fmap. eapply Forall_impl; [exact Hrow|]. simpl.
    intros v Hv. apply (heatmap_value v mx Hv). lra.
Qed.

End GradCamFacts.

(** C1 on the sample layer: asked for a map of height 1 and width 2,
    [grad_cam] returns one of 2 rows and 1 column, because
    [cv2.resize] takes its size as (width, height). *)
Theorem grad_cam_swaps_height_and_width :
  exists heatmap,
    grad_cam example_class_score example_gradient_function example_model [] 0 "conv2d_5" 1 2
    = Ok heatmap /\
    shape2 heatmap = (2, 1)%nat /\
    shape2 heatmap <> (1, 2)%nat.
Proof.
  destruct (grad_cam example_class_score example_gradient_function example_model [] 0 "conv2d_5" 1 2)
    as [heatmap|e] eqn:E; [|vm_compute in E; discriminate E].
  exists heatmap. split; [reflexivity|].
  rewrite (grad_cam_shape _ _ _ _ _ _ _ _ _ E). split; [reflexivity | discriminate].
Qed.

(** C3 on a layer whose gradient is zero everywhere: the resized map
    is zero, its maximum is 0, and [grad_cam] divides by it all the
    same; the heat map it returns holds NaN in every position. *)
Theorem grad_cam_divides_by_zero_maximum :
  grad_cam example_class_score zero_gradient_function example_model [] 0 "conv2d_5" 2 2
  = Ok [[NaN; NaN]; [NaN; NaN]].
Proof. vm_compute. reflexivity. Qed.

(** * Further properties of the script *)

(** ** The gradient rule *)

Lemma guided_value_Fin (q : Q) (x : npfloat) :
  guided_value (Fin q) x
  = Fin (q * (if Qltb 0 q then 1 else 0) * (if fgt0 x then 1 else 0)).
Proof.
  unfold guided_value, tf_cast. simpl fgt0.
  destruct (Qltb 0 q), (fgt0 x); reflexivity.
Qed.

Lemma guided_value_not_finite (grad x : npfloat) :
  ~ is_finite grad ->
  guided_value grad x = if fgt0 grad && fgt0 x then PInf else NaN.
Proof.
  intros H. destruct grad as [q| | |]; [destruct H; exact I| | |];
    unfold guided_value; simpl; destruct (fgt0 x); reflexivity.
Qed.

Lemma guided_value_not_negative (grad x : npfloat) :
  not_negative (guided_value grad x).
Proof.
  destruct grad as [q| | |].
  - rewrite guided_value_Fin. simpl.
    destruct (Qltb 0 q) eqn:E; [apply Qltb_lt in E|]; destruct (fgt0 x); lra.
  - rewrite guided_value_not_finite by (intros []). by destruct (_ && _).
  - rewrite guided_value_not_finite by (intros []). by destruct (_ && _).
  - rewrite guided_value_not_finite by (intros []). by destruct (_ && _).
Qed.

Lemma guided_value_is_finite (grad x : npfloat) :
  is_finite grad -> is_finite (guided_value grad x).
Proof. destruct grad; simpl; try tauto. intros _. by rewrite guided_value_Fin. Qed.

Lemma guided_value_again (grad x : npfloat) :
  same_value (guided_value (guided_value grad x) x) (guided_value grad x).
Proof.
  destruct grad as [q| | |].
  - rewrite !guided_value_Fin. simpl.
    destruct (Qltb 0 q) eqn:E; destruct (fgt0 x) eqn:Ex.
    + apply Qltb_lt in E.
      assert (Qltb 0 (q * 1 * 1) = true) as -> by (apply Qltb_lt; lra). ring.
    + assert (Qltb 0 (q * 1 * 0) = false) as -> by (apply Qltb_nlt; lra). ring.
    + assert (Qltb 0 (q * 0 * 1) = false) as -> by (apply Qltb_nlt; lra). ring.
    + assert (Qltb 0 (q * 0 * 0) = false) as -> by (apply Qltb_nlt; lra). ring.
  - unfold guided_value. simpl. destruct (fgt0 x) eqn:Ex; simpl; rewrite ?Ex; exact I.
  - unfold guided_value. simpl. destruct (fgt0 x); exact I.
  - unfold guided_value. simpl. exact I.
Qed.

(** The rule never lets a negative gradient through: whatever the
    incoming gradient and the input of the operation, every element it
    returns is a finite value from 0 up, +inf or NaN; for a finite
    gradient every element is finite; and on tensors of equal size it
    returns as many elements as it was given. *)
Theorem guided_backprop_rule_nonnegative
    (op : operation) (grads out : list npfloat) :
  _GuidedBackProp op grads = Ok out ->
  Forall not_negative out /\
  (Forall is_finite grads -> Forall is_finite out) /\
  (forall xs rest, op_inputs op = xs :: rest -> length xs = length grads ->
     length out = length grads).
Proof.
  unfold _GuidedBackProp. destruct (op_inputs op) as [|xs rest]; [discriminate|].
  intros [= <-]. split; [|split].
  - apply Forall_forall. intros v Hv.
    apply list_elem_of_lookup in Hv as [i Hi].
    rewrite lookup_zip_with in Hi.
    destruct (grads !! i) as [g|]; [|discriminate]. simpl in Hi.
    destruct (xs !! i) as [x|]; [|discriminate]. injection Hi as <-.
    apply guided_value_not_negative.
  - intros Hfin. apply Forall_forall. intros v Hv.
    apply list_elem_of_lookup in Hv as [i Hi].
    rewrite lookup_zip_with in Hi.
    destruct (grads !! i) as [g|] eqn:Hg; [|discriminate]. simpl in Hi.
    destruct (xs !! i) as [x|]; [|discriminate]. injection Hi as <-.
    apply guided_value_is_finite.
    eapply Forall_forall in Hfin; [exact Hfin|]. by eapply list_elem_of_lookup_2.
  - intros xs' rest' [= <- _] Hlen. rewrite length_zip_with. lia.
Qed.

Lemma guided_backprop_rule_nonnegative_witness :
  Forall not_negative [Fin (2 * 1 * 1); NaN; NaN; PInf] /\
  (Forall is_finite [Fin 2; PInf; NInf; PInf] ->
     Forall is_finite [Fin (2 * 1 * 1); NaN; NaN; PInf]) /\
  (forall xs rest,
     op_inputs {| op_inputs := [[Fin 1; Fin (-1); Fin 1; PInf]] |} = xs :: rest ->
     length xs = length [Fin 2; PInf; NInf; PInf] ->
     length [Fin (2 * 1 * 1); NaN; NaN; PInf] = length [Fin 2; PInf; NInf; PInf]).
Proof.
  apply (guided_backprop_rule_nonnegative
           {| op_inputs := [[Fin 1; Fin (-1); Fin 1; PInf]] |}
           [Fin 2; PInf; NInf; PInf]).
  reflexivity.
Defined.

(** An operation without inputs makes the rule fail on [op.inputs[0]]. *)
Example guided_backprop_rule_no_input :
  _GuidedBackProp {| op_inputs := [] |} [Fin 1] = Raise IndexError.
Proof. reflexivity. Qed.

(** Applying the rule to its own output, for the same operation,
    returns the same values: what passed once passes again unchanged,
    what was blocked stays 0, and a NaN stays NaN. *)
Theorem guided_backprop_rule_idempotent
    (op : operation) (grads out : list npfloat) :
  _GuidedBackProp op grads = Ok out ->
  exists out', _GuidedBackProp op out = Ok out' /\ Forall2 same_value out' out.
Proof.
  unfold _GuidedBackProp. destruct (op_inputs op) as [|xs rest]; [discriminate|].
  intros [= <-]. eexists; split; [reflexivity|].
  revert xs. induction grads as [|g grads IH]; intros [|x xs]; simpl;
    try constructor.
  - apply guided_value_again.
  - apply IH.
Qed.

Lemma guided_backprop_rule_idempotent_witness :
  exists out',
    _GuidedBackProp {| op_inputs := [[Fin 1; Fin (-1); Fin 1; PInf]] |}
      [Fin (2 * 1 * 1); NaN; NaN; PInf] = Ok out' /\
    Forall2 same_value out' [Fin (2 * 1 * 1); NaN; NaN; PInf].
Proof.
  apply (guided_backprop_rule_idempotent
           {| op_inputs := [[Fin 1; Fin (-1); Fin 1; PInf]] |}
           [Fin 2; PInf; NInf; PInf]).
  reflexivity.
Defined.

(** ** [guided_backprop] *)

Lemma replace_relu_idempotent (l : layer) :
  replace_relu (replace_relu l) = replace_relu l.
Proof.
  unfold replace_relu. destruct (activation l) as [a|] eqn:E; simpl.
  - destruct (decide (a = keras_relu)); simpl; [reflexivity|].
    rewrite E. destruct (decide (a = keras_relu)); [contradiction | reflexivity].
  - by rewrite E.
Qed.

Lemma replace_relu_layers_idempotent (ls : list layer) :
  replace_relu_layers (replace_relu_layers ls) = replace_relu_layers ls.
Proof.
  destruct ls as [|first rest]; [reflexivity|]. simpl. f_equal.
  rewrite map_map. apply map_ext. intros l. apply replace_relu_idempotent.
Qed.

Section GuidedBackpropMore.

Variable saliency_function :
  registry -> keras_model -> string -> list npfloat -> list npfloat.


(** A call that fails has already changed the process.  When the model
    file is missing the call raises [OSError], and when the file has no
    layer of the requested name it raises [ValueError]; in both cases the
    gradient is registered and the ReLU layers of the model passed in
    are rewritten by then, and in the second case the new model object
    exists as well. *)
Theorem guided_backprop_failure_leaves_changes
    (st : tf_state) (model : nat) (m : keras_model)
    (image : list npfloat) (target_layer path : string) :
  objects st !! model = Some m ->
  (disk st !! path = None ->
     guided_backprop saliency_function model image target_layer path st
     = (Raise OSError,
        {| gradient_registry := (register_guided_backprop (gradient_registry st)).2;
           objects := <[model := {| layers := replace_relu_layers (layers m);
                                    relu_gradient := relu_gradient m |}]> (objects st);
           disk := disk st |})) /\
  (forall ls,
     disk st !! path = Some ls ->
     get_layer {| layers := ls; relu_gradient := "Relu" |} target_layer
     = Raise ValueError ->
     guided_backprop saliency_function model image target_layer path st
     = (Raise ValueError,
        {| gradient_registry := (register_guided_backprop (gradient_registry st)).2;
           objects := <[model := {| layers := replace_relu_layers (layers m);
                                    relu_gradient := relu_gradient m |}]> (objects st)
                      ++ [{| layers := ls; relu_gradient := "GuidedBackProp" |}];
           disk := disk st |})) /\
  is_Some ((register_guided_backprop (gradient_registry st)).2 !! "GuidedBackProp").
Proof.
  intros Hm.
  pose proof (register_guided_backprop_ok (gradient_registry st)) as Hok.
  split; [|split; [|apply register_guided_backprop_registers]].
  - intros Hdisk.
    unfold guided_backprop, with_registry, bind at 1.
    destruct (register_guided_backprop (gradient_registry st)) as [r reg'].
    simpl in Hok. subst r. simpl.
    unfold modify_backprop, load_model, bind, get, put, ret, raise.
    simpl. rewrite Hm. simpl. rewrite Hdisk. reflexivity.
  - intros ls Hdisk Hlayer.
    assert (get_layer {| layers := ls; relu_gradient := "GuidedBackProp" |}
              target_layer = Raise ValueError) as Hlayer'
      by (unfold get_layer in *; exact Hlayer).
    unfold guided_backprop, with_registry, bind at 1.
    destruct (register_guided_backprop (gradient_registry st)) as [r reg'].
    simpl in Hok. subst r. simpl.
    unfold modify_backprop, load_model, compile_saliency_function,
      bind, get, put, ret, raise.
    simpl. rewrite Hm. simpl. rewrite Hdisk. simpl.
    rewrite lookup_app_r by (rewrite length_insert; lia).
    rewrite length_insert, Nat.sub_diag. simpl.
    rewrite Hlayer'. reflexivity.
Qed.

(** A second call changes nothing that the first call had not changed
    already: the registry and the model passed in stay as the first call
    left them, the same saliency comes back, and one more guided model
    object is created. *)
Theorem guided_backprop_twice
    (st st1 : tf_state) (model : nat) (m : keras_model) (out : list npfloat)
    (image : list npfloat) (target_layer path : string) (ls : list layer) (l : layer) :
  objects st !! model = Some m ->
  disk st !! path = Some ls ->
  get_layer {| layers := ls; relu_gradient := "Relu" |} target_layer = Ok l ->
  guided_backprop saliency_function model image target_layer path st = (Ok out, st1) ->
  exists st2,
    guided_backprop saliency_function model image target_layer path st1 = (Ok out, st2) /\
    gradient_registry st2 = gradient_registry st1 /\
    objects st2 !! model = objects st1 !! model /\
    objects st2 = objects st1 ++ [{| layers := ls; relu_gradient := "GuidedBackProp" |}] /\
    disk st2 = disk st1.
Proof.
  intros Hm Hdisk Hlayer Hrun.
  rewrite (guided_backprop_run saliency_function st model m image
             target_layer path ls l Hm Hdisk Hlayer) in Hrun.
  injection Hrun as <- <-.
  pose proof (lookup_lt_Some _ _ _ Hm) as Hlt.
  set (m1 := {| layers := replace_relu_layers (layers m);
                relu_gradient := relu_gradient m |}).
  set (st1 := {| gradient_registry := (register_guided_backprop (gradient_registry st)).2;
                 objects := <[model := m1]> (objects st)
                            ++ [{| layers := ls; relu_gradient := "GuidedBackProp" |}];
                 disk := disk st |}).
  assert (objects st1 !! model = Some m1) as Hm1.
  { simpl. rewrite lookup_app_l by (rewrite length_insert; lia).
    by apply list_lookup_insert_eq. }
  assert ((register_guided_backprop (gradient_registry st1)).2 = gradient_registry st1)
    as Hreg.
  { rewrite register_guided_backprop_present; [reflexivity|].
    apply register_guided_backprop_registers. }
  eexists. split.
  { rewrite (guided_backprop_run saliency_function st1 model m1 image
               target_layer path ls l Hm1 Hdisk Hlayer).
    rewrite Hreg. reflexivity. }
  simpl.
  assert (<[model := {| layers := replace_relu_layers (replace_relu_layers (layers m));
                        relu_gradient := relu_gradient m |}]>
            (<[model := m1]> (objects st)
             ++ [{| layers := ls; relu_gradient := "GuidedBackProp" |}])
          = <[model := m1]> (objects st)
            ++ [{| layers := ls; relu_gradient := "GuidedBackProp" |}]) as Hsame.
  { rewrite replace_relu_layers_idempotent. apply list_insert_id.
    rewrite lookup_app_l by (rewrite length_insert; lia).
    by apply list_lookup_insert_eq. }
  rewrite Hsame.
  repeat split.
  - rewrite lookup_app_l; [reflexivity|].
    rewrite length_app, length_insert. simpl. lia.
Qed.

End GuidedBackpropMore.


Lemma guided_backprop_failure_leaves_changes_witness :
  (guided_backprop (fun _ _ _ image => image) 0 [Fin 1] "conv2d_5"
     "missing.h5" example_state).1 = Raise OSError /\
  objects (guided_backprop (fun _ _ _ image => image) 0 [Fin 1] "conv2d_5"
     "missing.h5" example_state).2 !! 0%nat
  = Some {| layers := replace_relu_layers example_layers; relu_gradient := "Relu" |} /\
  (guided_backprop (fun _ _ _ image => image) 0 [Fin 1] "conv2d_9"
     "saved_models/keras_alexnet.h5" example_state).1 = Raise ValueError.
Proof.
  pose proof (guided_backprop_failure_leaves_changes (fun _ _ _ image => image)
                example_state 0 example_model [Fin 1] "conv2d_5" "missing.h5"
                eq_refl) as (Hmissing & _ & _).
  pose proof (guided_backprop_failure_leaves_changes (fun _ _ _ image => image)
                example_state 0 example_model [Fin 1] "conv2d_9"
                "saved_models/keras_alexnet.h5" eq_refl) as (_ & Hlayer & _).
  rewrite (Hmissing eq_refl), (Hlayer example_layers eq_refl eq_refl).
  repeat split.
Defined.

Lemma guided_backprop_twice_witness :
  exists st2,
    guided_backprop (fun _ _ _ image => image) 0 [Fin 1] "conv2d_5"
      "saved_models/keras_alexnet.h5"
      (guided_backprop (fun _ _ _ image => image) 0 [Fin 1] "conv2d_5"
         "saved_models/keras_alexnet.h5" example_state).2
    = (Ok [Fin 1], st2) /\
    gradient_registry st2
    = gradient_registry (guided_backprop (fun _ _ _ image => image) 0 [Fin 1] "conv2d_5"
                           "saved_models/keras_alexnet.h5" example_state).2 /\
    objects st2 !! 0%nat
    = objects (guided_backprop (fun _ _ _ image => image) 0 [Fin 1] "conv2d_5"
                 "saved_models/keras_alexnet.h5" example_state).2 !! 0%nat /\
    objects st2
    = objects (guided_backprop (fun _ _ _ image => image) 0 [Fin 1] "conv2d_5"
                 "saved_models/keras_alexnet.h5" example_state).2
      ++ [{| layers := example_layers; relu_gradient := "GuidedBackProp" |}] /\
    disk st2
    = disk (guided_backprop (fun _ _ _ image => image) 0 [Fin 1] "conv2d_5"
              "saved_models/keras_alexnet.h5" example_state).2.
Proof.
  apply (guided_backprop_twice (fun _ _ _ image => image) example_state _ 0
           example_model [Fin 1] [Fin 1] "conv2d_5" "saved_models/keras_alexnet.h5"
           example_layers
           {| layer_name := "conv2d_5"; activation := Some keras_relu |});
    reflexivity.
Defined.

(** ** [grad_cam] *)

Lemma foldr_Qmax_elem (v : Q) (vs : list Q) : foldr Qmax v vs ∈ v :: vs.
Proof.
  induction vs as [|x vs IH]; simpl; [left|].
  unfold Qmax at 1, GenericMinMax.gmax.
  destruct (x ?= foldr Qmax v vs)%Q.
  - right. left.
  - apply elem_of_cons in IH as [->|IH]; [left | right; right; exact IH].
  - right. left.
Qed.

Lemma np_max2_attained (a : list (list Q)) (mx : Q) :
  np_max2 a = Ok mx -> exists row, row ∈ a /\ mx ∈ row.
Proof.
  unfold np_max2. destruct (concat a) as [|v vs] eqn:E; [discriminate|].
  intros [= <-].
  pose proof (foldr_Qmax_elem v vs) as Hin. rewrite <- E in Hin.
  apply list_elem_of_In, in_concat in Hin as (row & Hrow & Hin).
  exists row. split; by apply list_elem_of_In.
Qed.

Lemma cv2_resize_ok (rows cols : nat) (src : list (list Q)) (w h : nat) :
  (0 < rows)%nat -> (0 < cols)%nat -> (0 < w)%nat -> (0 < h)%nat ->
  exists dst first rest,
    cv2_resize rows cols src (w, h) = Ok dst /\ concat dst = first :: rest.
Proof.
  intros Hr Hc Hw Hh. unfold cv2_resize.
  destruct rows as [|rows]; [lia|]. destruct cols as [|cols]; [lia|].
  destruct w as [|w]; [lia|]. destruct h as [|h]; [lia|].
  simpl. eauto.
Qed.

Lemma cv2_resize_error (rows cols : nat) (src : list (list Q)) (w h : nat) :
  (rows = 0 \/ cols = 0 \/ w = 0 \/ h = 0)%nat ->
  cv2_resize rows cols src (w, h) = Raise cv2_error.
Proof.
  intros H. unfold cv2_resize.
  destruct rows, cols, w, h; simpl; try reflexivity; lia.
Qed.

Lemma length_channel_means (g : tensor3) : length (channel_means g) = t_chans g.
Proof. unfold channel_means. by rewrite length_fmap, length_seq. Qed.

Lemma get_layer_error (model : keras_model) (name : string) (e : exn) :
  get_layer model name = Raise e -> e = ValueError.
Proof. unfold get_layer. destruct (List.find _ _); congruence. Qed.

Section GradCamMore.

Variable class_score : keras_model -> nat -> result unit.
Variable gradient_function :
  keras_model -> nat -> string -> list npfloat -> result (tensor3 * tensor3).

(** How [grad_cam] ends, in the order of its lines.  An index that
    TensorFlow refuses at line 105 ends the call with that exception; a
    layer name the model does not have raises [ValueError] at line 106;
    an exception of the Keras function of lines 107-112 ends the call;
    activations and gradients with different numbers of channels raise
    [ValueError] in [np.dot]; an empty activation map, a height of 0 or
    a width of 0 raises [cv2.error] in [cv2.resize]; in every other
    case a heat map comes back.  A zero maximum is not among the
    failures. *)
Theorem grad_cam_outcomes (model : keras_model) (image : list npfloat)
    (category_index : nat) (layer_name : string) (height width : nat) :
  (forall e, class_score model category_index = Raise e ->
     grad_cam class_score gradient_function model image category_index layer_name
       height width = Raise e) /\
  (class_score model category_index = Ok tt ->
   (forall e, get_layer model layer_name = Raise e ->
      grad_cam class_score gradient_function model image category_index layer_name
        height width = Raise ValueError) /\
   (forall l, get_layer model layer_name = Ok l ->
      (forall e, gradient_function model category_index layer_name image = Raise e ->
         grad_cam class_score gradient_function model image category_index layer_name
           height width = Raise e) /\
      (forall output grads_val,
         gradient_function model category_index layer_name image
         = Ok (output, grads_val) ->
         (t_chans output <> t_chans grads_val ->
            grad_cam class_score gradient_function model image category_index
              layer_name height width = Raise ValueError) /\
         (t_chans output = t_chans grads_val ->
            ((t_rows output = 0 \/ t_cols output = 0 \/ height = 0 \/ width = 0)%nat ->
               grad_cam class_score gradient_function model image category_index
                 layer_name height width = Raise cv2_error) /\
            ((0 < t_rows output)%nat -> (0 < t_cols output)%nat ->
             (0 < height)%nat -> (0 < width)%nat ->
               exists heatmap,
                 grad_cam class_score gradient_function model image category_index
                   layer_name height width = Ok heatmap))))).
Proof.
  unfold grad_cam. split.
  { intros e ->. reflexivity. }
  intros ->. split.
  { intros e He. rewrite He. by rewrite (get_layer_error _ _ _ He). }
  intros l ->. split.
  { intros e ->. reflexivity. }
  intros output grads_val ->. unfold np_dot. rewrite length_channel_means.
  split.
  { intros Hne. apply Nat.eqb_neq in Hne. by rewrite Hne. }
  intros Heq. apply Nat.eqb_eq in Heq. rewrite Heq. split.
  { intros H. by rewrite cv2_resize_error. }
  intros Hr Hc Hh Hw.
  match goal with
  | |- context [cv2_resize ?r ?c ?cam (height, width)] =>
      destruct (cv2_resize_ok r c cam height width) as (dst & v & vs & -> & Hne);
        try lia
  end.
  unfold np_max2. rewrite Hne. eauto.
Qed.

(** The heat map has [width] rows of [height] values each: the two are
    interchanged with respect to numpy's (rows, columns), and the shape
    is (height, width) only for a square request. *)
Theorem grad_cam_heatmap_shape (model : keras_model) (image : list npfloat)
    (category_index : nat) (layer_name : string) (height width : nat)
    (heatmap : list (list npfloat)) :
  grad_cam class_score gradient_function model image category_index layer_name height width
  = Ok heatmap ->
  shape2 heatmap = (width, height) /\
  Forall (fun row => length row = height) heatmap /\
  (shape2 heatmap = (height, width) <-> height = width).
Proof.
  intros H.
  pose proof (grad_cam_shape class_score gradient_function _ _ _ _ _ _ _ H) as Hshape.
  apply grad_cam_inv in H as (cam & mx & _ & -> & _ & _ & Hrows & _).
  split; [exact Hshape|]. split.
  - apply Forall_fmap. eapply Forall_impl; [exact Hrows|]. simpl.
    intros row <-. by rewrite length_map.
  - rewrite Hshape. split; [intros [= -> _]; reflexivity | by intros ->].
Qed.

End GradCamMore.

Lemma grad_cam_heatmap_shape_witness :
  exists heatmap,
    grad_cam example_class_score example_gradient_function example_model [] 0 "conv2d_5" 3 2
    = Ok heatmap /\
    shape2 heatmap = (2, 3)%nat /\
    Forall (fun row => length row = 3%nat) heatmap /\
    (shape2 heatmap = (3, 2)%nat <-> 3%nat = 2%nat).
Proof.
  destruct (grad_cam example_class_score example_gradient_function example_model [] 0 "conv2d_5" 3 2)
    as [heatmap|e] eqn:E; [|vm_compute in E; discriminate E].
  exists heatmap. split; [reflexivity|].
  exact (grad_cam_heatmap_shape example_class_score example_gradient_function
           example_model [] 0 "conv2d_5" 3 2 heatmap E).
Defined.

(** The failures of [grad_cam] on the sample layer: a height of 0, and
    a layer the model does not have. *)
Example grad_cam_empty_size :
  grad_cam example_class_score example_gradient_function example_model [] 0 "conv2d_5" 0 2
  = Raise cv2_error.
Proof. reflexivity. Qed.

Example grad_cam_unknown_layer :
  grad_cam example_class_score example_gradient_function example_model [] 0 "conv2d_9" 2 2
  = Raise ValueError.
Proof. reflexivity. Qed.

(** ** What the compositor functions leave alone *)

Lemma frame_of_refl (b : nat) (h : heap) : frame_of b h h.
Proof. split; [lia | reflexivity]. Qed.

Lemma frame_of_insert (b : nat) (h h1 : heap) (c : nat) (v : buffer) :
  frame_of b h h1 -> (c = b \/ (length h <= c)%nat) ->
  frame_of b h (<[c := v]> h1).
Proof.
  intros [Hlen Hsame] Hc. split; [by rewrite length_insert|].
  intros l Hl Hne. rewrite list_lookup_insert_ne by lia. by apply Hsame.
Qed.

Lemma frame_of_app (b : nat) (h h1 : heap) (v : buffer) :
  frame_of b h h1 -> frame_of b h (h1 ++ [v]).
Proof.
  intros [Hlen Hsame]. split; [rewrite length_app; lia|].
  intros l Hl Hne. rewrite lookup_app_l by lia. by apply Hsame.
Qed.

Section WritesOnly.

Variables (b : nat) (h : heap).

Lemma writes_only_ret {A} (a : A) (post : A -> Prop) :
  post a -> writes_only b h (ret a) post.
Proof. intros Hp h1 r h2 Hf [= <- <-]. split; [exact Hf | by intros ? [= <-]]. Qed.

Lemma writes_only_raise {A} (e : exn) (post : A -> Prop) :
  writes_only b h (raise e) post.
Proof. intros h1 r h2 Hf [= <- <-]. split; [exact Hf | discriminate]. Qed.

Lemma writes_only_bind {A B} (m : M heap A) (k : A -> M heap B)
    (mid : A -> Prop) (post : B -> Prop) :
  writes_only b h m mid ->
  (forall a, mid a -> writes_only b h (k a) post) ->
  writes_only b h (bind m k) post.
Proof.
  intros Hm Hk h1 r h2 Hf. unfold bind.
  destruct (m h1) as [[a|e] h'] eqn:E.
  - destruct (Hm _ _ _ Hf E) as [Hf' Ha]. intros Hrun.
    exact (Hk a (Ha a eq_refl) _ _ _ Hf' Hrun).
  - destruct (Hm _ _ _ Hf E) as [Hf' _]. intros [= <- <-].
    split; [exact Hf' | discriminate].
Qed.

Lemma writes_only_weaken {A} (m : M heap A) (post post' : A -> Prop) :
  writes_only b h m post -> (forall a, post a -> post' a) ->
  writes_only b h m post'.
Proof.
  intros Hm Himp h1 r h2 Hf E. destruct (Hm _ _ _ Hf E) as [Hf' Ha].
  split; [exact Hf' | intros a Hr; apply Himp, Ha, Hr].
Qed.

Lemma writes_only_contents (a : ndarray) :
  writes_only b h (contents a) (fun _ => True).
Proof.
  intros h1 r h2 Hf E. apply contents_state in E as ->. by split.
Qed.

Lemma writes_only_alloc (v : buffer) (sh : list nat) :
  writes_only b h (alloc v sh) (own_array b h).
Proof.
  intros h1 r h2 Hf. rewrite alloc_spec. intros [= <- <-].
  split; [by apply frame_of_app|]. intros a [= <-].
  right. simpl. destruct Hf. lia.
Qed.

Lemma writes_only_inplace_float (f : npfloat -> npfloat) (a : ndarray) :
  own_array b h a -> writes_only b h (inplace_float f a) (fun _ => True).
Proof.
  intros Ha h1 r h2 Hf. unfold inplace_float, bind, get, put, raise.
  destruct (h1 !! base a) as [[l|l]|]; intros [= <- <-];
    (split; [|done]); try exact Hf.
  by apply frame_of_insert.
Qed.

Lemma writes_only_subtract_min (a : ndarray) :
  own_array b h a -> writes_only b h (subtract_min_inplace a) (fun _ => True).
Proof.
  intros Ha h1 r h2 Hf. unfold subtract_min_inplace, bind, get, put, raise.
  destruct (h1 !! base a) as [[l|l]|].
  - destruct (np_min_float _); intros [= <- <-]; (split; [|done]);
      [by apply frame_of_insert | exact Hf].
  - destruct (np_min_uint8 _); intros [= <- <-]; (split; [|done]);
      [by apply frame_of_insert | exact Hf].
  - intros [= <- <-]. by split.
Qed.

Lemma writes_only_map_float (f : npfloat -> npfloat) (a : ndarray) :
  writes_only b h (map_float f a) (own_array b h).
Proof.
  unfold map_float. eapply writes_only_bind; [apply writes_only_contents|].
  intros c _. apply writes_only_alloc.
Qed.

Lemma writes_only_astype_uint8 (a : ndarray) :
  writes_only b h (astype_uint8 a) (own_array b h).
Proof.
  unfold astype_uint8. eapply writes_only_bind; [apply writes_only_contents|].
  intros c _. apply writes_only_alloc.
Qed.

Lemma writes_only_transpose (a : ndarray) :
  writes_only b h (np_transpose_120 a) (own_array b h).
Proof.
  unfold np_transpose_120.
  destruct (shape a) as [|c [|r [|k [|]]]]; try apply writes_only_raise.
  eapply writes_only_bind; [apply writes_only_contents|].
  intros v _. apply writes_only_alloc.
Qed.

Lemma writes_only_minimum_255 (a : ndarray) :
  writes_only b h (minimum_255 a) (own_array b h).
Proof.
  unfold minimum_255. eapply writes_only_bind; [apply writes_only_contents|].
  intros c _. apply writes_only_alloc.
Qed.

Lemma writes_only_times_255 (a : ndarray) :
  writes_only b h (times_255 a) (own_array b h).
Proof.
  unfold times_255. eapply writes_only_bind; [apply writes_only_contents|].
  intros c _. apply writes_only_alloc.
Qed.

Lemma writes_only_applyColorMap (jet : Z -> Z * Z * Z) (a : ndarray) :
  writes_only b h (applyColorMap jet a) (own_array b h).
Proof.
  unfold applyColorMap.
  destruct (colormap_shape (shape a)) as [sh|]; [|apply writes_only_raise].
  eapply writes_only_bind; [apply writes_only_contents|].
  intros [l|l] _; [apply writes_only_raise | apply writes_only_alloc].
Qed.

Lemma writes_only_first_along_axis0 (a : ndarray) :
  own_array b h a -> writes_only b h (first_along_axis0 a) (own_array b h).
Proof.
  intros Ha. unfold first_along_axis0.
  destruct (shape a) as [|[|n] [|d rest]]; try apply writes_only_raise.
  by apply writes_only_ret.
Qed.

End WritesOnly.

Lemma own_array_squeeze (b : nat) (h : heap) (a : ndarray) :
  own_array b h a -> own_array b h (np_squeeze a).
Proof. exact id. Qed.

Lemma normalize_image_writes_only
    (sqrt : Q -> Q) (image_dim_ordering : string) (x : ndarray) (h : heap) :
  writes_only (base x) h (normalize_image sqrt image_dim_ordering x)
    (own_array (base x) h).
Proof.
  unfold normalize_image.
  set (x' := if (3 <? np_ndim x)%nat then np_squeeze x else x).
  assert (own_array (base x) h x') as Hx'
    by (subst x'; destruct (3 <? np_ndim x)%nat; by left).
  clearbody x'.
  eapply (writes_only_bind _ _ _ _ (fun _ => True));
    [unfold x_mean; eapply writes_only_bind;
     [apply writes_only_contents | intros; by apply writes_only_ret]|].
  intros m _.
  eapply writes_only_bind; [by apply writes_only_inplace_float|]. intros _ _.
  eapply (writes_only_bind _ _ _ _ (fun _ => True));
    [unfold x_std; eapply writes_only_bind;
     [apply writes_only_contents | intros; by apply writes_only_ret]|].
  intros s _.
  eapply writes_only_bind; [by apply writes_only_inplace_float|]. intros _ _.
  eapply writes_only_bind; [by apply writes_only_inplace_float|]. intros _ _.
  eapply writes_only_bind; [by apply writes_only_inplace_float|]. intros _ _.
  eapply writes_only_bind; [apply writes_only_map_float|]. intros x1 Hx1.
  eapply writes_only_bind; [by apply writes_only_inplace_float|]. intros _ _.
  eapply writes_only_bind.
  { instantiate (1 := own_array (base x) h).
    destruct (image_dim_ordering =? "th")%string;
      [apply writes_only_transpose | by apply writes_only_ret]. }
  intros x2 Hx2.
  eapply writes_only_bind; [apply writes_only_map_float|]. intros x3 Hx3.
  apply writes_only_astype_uint8.
Qed.

Lemma overlay_heatmap_writes_only
    (jet : Z -> Z * Z * Z) (image heatmap : ndarray) (h : heap) :
  writes_only (base image) h (overlay_heatmap jet image heatmap)
    (own_array (base image) h).
Proof.
  unfold overlay_heatmap.
  eapply writes_only_bind; [apply writes_only_first_along_axis0; by left|].
  intros image1 Hi1.
  eapply writes_only_bind; [by apply writes_only_subtract_min|]. intros _ _.
  eapply writes_only_bind; [apply writes_only_minimum_255|]. intros image2 _.
  eapply writes_only_bind; [apply writes_only_times_255|]. intros scaled _.
  eapply writes_only_bind; [apply writes_only_astype_uint8|]. intros grey _.
  eapply writes_only_bind; [apply writes_only_applyColorMap|]. intros cam _.
  eapply writes_only_bind; [apply writes_only_contents|]. intros cam_b _.
  eapply writes_only_bind; [apply writes_only_contents|]. intros image_b _.
  destruct (broadcast_add _ _ _ _) as [[sh sum]|e]; [|apply writes_only_raise].
  destruct (np_max_float sum) as [mx|e]; [|apply writes_only_raise].
  eapply writes_only_bind; [apply writes_only_alloc|]. intros cam2 _.
  apply writes_only_astype_uint8.
Qed.

(** Whatever the outcome of [normalize_image(x)], every array that
    existed before the call and does not share the buffer of [x] is
    left exactly as it was, no array disappears, and the array returned
    is either a new one or built on the buffer of [x], never on another
    existing buffer. *)
Theorem normalize_image_touches_only_its_argument
    (sqrt : Q -> Q) (image_dim_ordering : string) (x : ndarray) (h h' : heap)
    (r : result ndarray) :
  normalize_image sqrt image_dim_ordering x h = (r, h') ->
  (length h <= length h')%nat /\
  (forall l, (l < length h)%nat -> l <> base x -> h' !! l = h !! l) /\
  (forall y, r = Ok y -> base y = base x \/ (length h <= base y)%nat).
Proof.
  intros H.
  destruct (normalize_image_writes_only sqrt image_dim_ordering x h h r h'
              (frame_of_refl _ _) H) as [[Hlen Hsame] Hy].
  auto.
Qed.

(** Whatever the outcome of [overlay_heatmap(image, heatmap)], the only
    existing buffer it may write to is that of [image]: the heat map,
    when it is a separate array, and every other array are unchanged. *)
Theorem overlay_heatmap_touches_only_the_image
    (COLORMAP_JET : Z -> Z * Z * Z) (image heatmap : ndarray) (h h' : heap)
    (r : result ndarray) :
  overlay_heatmap COLORMAP_JET image heatmap h = (r, h') ->
  (length h <= length h')%nat /\
  (forall l, (l < length h)%nat -> l <> base image -> h' !! l = h !! l) /\
  ((base heatmap < length h)%nat -> base heatmap <> base image ->
     h' !! base heatmap = h !! base heatmap) /\
  (forall y, r = Ok y -> base y = base image \/ (length h <= base y)%nat).
Proof.
  intros H.
  destruct (overlay_heatmap_writes_only COLORMAP_JET image heatmap h h r h'
              (frame_of_refl _ _) H) as [[Hlen Hsame] Hy].
  auto.
Qed.

(** ** [normalize_image], step by step *)

Lemma length_window {A} (off n : nat) (l : list A) :
  length (window off n l) = Nat.min n (length l - off).
Proof. unfold window. by rewrite length_take, length_drop. Qed.

Lemma length_splice_window {A} (f : A -> A) (off n : nat) (l : list A) :
  length (splice off (map f (window off n l)) l) = length l.
Proof.
  unfold splice, window.
  rewrite !length_app, length_map, !length_take, !length_drop. lia.
Qed.

Lemma product_squeeze (sh : list nat) :
  product (List.filter (fun n => negb (n =? 1)%nat) sh) = product sh.
Proof.
  induction sh as [|n sh IH]; [reflexivity|]. simpl.
  destruct (n =? 1)%nat eqn:E; simpl.
  - apply Nat.eqb_eq in E as ->. unfold product in *. simpl. lia.
  - unfold product in *. simpl. lia.
Qed.

Lemma inplace_float_step (f : npfloat -> npfloat) (a : ndarray) (k : nat) (h : heap) :
  float_view a k h ->
  exists h', inplace_float f a h = (Ok tt, h') /\
             float_view a k h' /\ length h' = length h /\
             (forall i, i <> base a -> h' !! i = h !! i).
Proof.
  intros (l & Hl & Hk). eexists. split; [by apply inplace_float_ok|].
  pose proof (lookup_lt_Some _ _ _ Hl) as Hlt.
  split; [|split; [apply length_insert|]].
  - eexists. split; [by apply list_lookup_insert_eq|].
    rewrite length_window, length_splice_window, <- length_window. exact Hk.
  - intros i Hi. by apply list_lookup_insert_ne.
Qed.

Lemma map_float_step (f : npfloat -> npfloat) (a : ndarray) (k : nat) (h : heap) :
  float_view a k h ->
  exists v,
    map_float f a h
    = (Ok {| base := length h; offset := 0; shape := shape a |}, h ++ [FloatBuf v]) /\
    float_view {| base := length h; offset := 0; shape := shape a |} k
      (h ++ [FloatBuf v]).
Proof.
  intros (l & Hl & Hk). eexists. split; [by apply map_float_ok|].
  eexists. split; [apply lookup_app_new|].
  pose proof (length_window (offset a) (np_size a) l) as Hw. rewrite Hk in Hw.
  cbn [offset view as_float]. rewrite length_window, length_map, Hk.
  change (np_size {| base := length h; offset := 0; shape := shape a |})
    with (np_size a). lia.
Qed.

Lemma astype_uint8_step (a : ndarray) (k : nat) (h : heap) :
  float_view a k h ->
  exists v,
    astype_uint8 a h
    = (Ok {| base := length h; offset := 0; shape := shape a |}, h ++ [UInt8Buf v]) /\
    uint8_view {| base := length h; offset := 0; shape := shape a |} k
      (h ++ [UInt8Buf v]).
Proof.
  intros (l & Hl & Hk). eexists. split; [by apply astype_uint8_ok|].
  eexists. split; [apply lookup_app_new|].
  pose proof (length_window (offset a) (np_size a) l) as Hw. rewrite Hk in Hw.
  cbn [offset view]. split.
  - rewrite length_window, length_map, Hk.
    change (np_size {| base := length h; offset := 0; shape := shape a |})
      with (np_size a). lia.
  - unfold window at 1. apply Forall_take, Forall_drop, Forall_forall.
    intros z Hz. apply list_elem_of_fmap in Hz as (v & -> & _).
    apply to_uint8_range.
Qed.

Lemma length_transpose_120 (c r k : nat) (l : list npfloat) :
  length (transpose_120 c r k l) = (c * r * k)%nat.
Proof.
  unfold transpose_120.
  assert (forall (n : nat) (g : nat -> list npfloat) (m : nat),
            (forall i, length (g i) = m) ->
            forall s, length (i ← seq s n; g i) = (n * m)%nat) as Hbind.
  { intros n g m Hg. induction n as [|n IH]; intros s; [reflexivity|].
    simpl. rewrite length_app, Hg, IH. lia. }
  rewrite (Hbind r _ (k * c)%nat); [lia|].
  intros i. rewrite (Hbind k _ c); [lia|].
  intros j. rewrite (Hbind c _ 1%nat); [lia | reflexivity].
Qed.

Lemma transpose_step (a : ndarray) (n : nat) (h : heap) (c r k : nat) :
  float_view a n h -> shape a = [c; r; k] ->
  exists v,
    np_transpose_120 a h
    = (Ok {| base := length h; offset := 0; shape := [r; k; c] |}, h ++ [FloatBuf v]) /\
    float_view {| base := length h; offset := 0; shape := [r; k; c] |}
      (c * r * k) (h ++ [FloatBuf v]).
Proof.
  intros (l & Hl & Hk) Hsh. unfold np_transpose_120. rewrite Hsh.
  rewrite (bind_ok _ _ _ _ _ (contents_ok _ _ _ Hl)). rewrite alloc_spec.
  eexists. split; [reflexivity|].
  eexists. split; [apply lookup_app_new|]. simpl.
  rewrite length_window, length_transpose_120, Nat.sub_0_r.
  unfold np_size, product. simpl. lia.
Qed.

Lemma transpose_wrong_rank (a : ndarray) (h : heap) :
  length (shape a) <> 3%nat -> np_transpose_120 a h = (Raise ValueError, h).
Proof.
  intros H. unfold np_transpose_120.
  destruct (shape a) as [|c [|r [|k [|]]]]; try reflexivity. simpl in H. lia.
Qed.

Section NormalizeImageRun.

Variable sqrt : Q -> Q.

(** Lines 24-36: after the four in-place updates and [x *= 255] on the
    clipped copy, the caller's array still sees as many elements, and
    the copy [x1] is the array at the first new location. *)
Lemma normalize_image_stages (x : ndarray) (h : heap) (l : list npfloat) :
  h !! base x = Some (FloatBuf l) ->
  exists x' h5,
    x' = (if (3 <? np_ndim x)%nat then np_squeeze x else x) /\
    float_view {| base := length h; offset := 0; shape := shape x' |}
      (length (window (offset x') (np_size x') l)) h5 /\
    length h5 = S (length h) /\
    (forall i, (i < length h)%nat -> i <> base x -> h5 !! i = h !! i) /\
    forall image_dim_ordering,
      normalize_image sqrt image_dim_ordering x h
      = (x2 <- (if (image_dim_ordering =? "th")%string
                then np_transpose_120 {| base := length h; offset := 0; shape := shape x' |}
                else ret {| base := length h; offset := 0; shape := shape x' |}) ;;
         x3 <- map_float (fclip 0 255) x2 ;;
         astype_uint8 x3) h5.
Proof.
  intros Hx. unfold normalize_image.
  exists (if (3 <? np_ndim x)%nat then np_squeeze x else x).
  set (x' := if (3 <? np_ndim x)%nat then np_squeeze x else x).
  assert (base x' = base x) as Hb by (subst x'; by destruct (3 <? np_ndim x)%nat).
  clearbody x'. rewrite <- Hb in *.
  set (k := length (window (offset x') (np_size x') l)).
  assert (float_view x' k h) as Hv0 by (exists l; by split).
  destruct (inplace_float_step
              (fun v => fsub v (np_mean (as_float (view x' (FloatBuf l))))) x' k h Hv0)
    as (h1 & E1 & Hv1 & Hlen1 & Hfr1).
  destruct Hv1 as (l1 & Hl1 & Hk1).
  destruct (inplace_float_step
              (fun v => fdiv v (fadd (np_std sqrt (as_float (view x' (FloatBuf l1))))
                                  (Fin (1 # 100000)))) x' k h1
              (ex_intro _ l1 (conj Hl1 Hk1)))
    as (h2 & E2 & Hv2 & Hlen2 & Hfr2).
  destruct (inplace_float_step (fun v => fmul v (Fin (1 # 10))) x' k h2 Hv2)
    as (h3 & E3 & Hv3 & Hlen3 & Hfr3).
  destruct (inplace_float_step (fun v => fadd v (Fin (1 # 2))) x' k h3 Hv3)
    as (h4 & E4 & Hv4 & Hlen4 & Hfr4).
  destruct (map_float_step (fclip 0 1) x' k h4 Hv4) as (v5 & E5 & Hv5).
  destruct (inplace_float_step (fun v => fmul v (Fin 255)) _ k _ Hv5)
    as (h5 & E6 & Hv6 & Hlen6 & Hfr6).
  assert (length h4 = length h) as Hlen by congruence.
  rewrite Hlen in *.
  exists h5. split; [reflexivity|]. split; [exact Hv6|].
  split; [rewrite Hlen6, length_app; simpl; lia|]. split.
  - intros i Hi Hne. rewrite Hfr6 by (simpl; lia).
    rewrite lookup_app_l by lia.
    rewrite Hfr4, Hfr3, Hfr2, Hfr1 by exact Hne. reflexivity.
  - intros ordering.
    rewrite (bind_ok _ _ _ _ _ (x_mean_ok x' h (FloatBuf l) Hx)).
    rewrite (bind_ok _ _ _ _ _ E1).
    rewrite (bind_ok _ _ _ _ _ (x_std_ok sqrt x' h1 (FloatBuf l1) Hl1)).
    rewrite (bind_ok _ _ _ _ _ E2).
    rewrite (bind_ok _ _ _ _ _ E3).
    rewrite (bind_ok _ _ _ _ _ E4).
    rewrite (bind_ok _ _ _ _ _ E5).
    rewrite (bind_ok _ _ _ _ _ E6).
    reflexivity.
Qed.

End NormalizeImageRun.

Lemma bind_ret {S A B} (a : A) (k : A -> M S B) (s : S) :
  bind (ret a) k s = k a s.
Proof. reflexivity. Qed.

Section NormalizeImageResults.

Variable sqrt : Q -> Q.

(** On a floating array, with any ordering other than "th",
    [normalize_image] returns: the result is a new [uint8] array, not a
    view of an existing one, of the shape of the input (without its axes
    of length 1 when the input has more than three axes), with one byte
    in [0, 255] for every element of the input. *)
Theorem normalize_image_returns_uint8_image
    (image_dim_ordering : string) (x : ndarray) (h : heap) (l : list npfloat) :
  h !! base x = Some (FloatBuf l) ->
  (offset x + np_size x <= length l)%nat ->
  image_dim_ordering <> "th" ->
  exists y h',
    normalize_image sqrt image_dim_ordering x h = (Ok y, h') /\
    shape y = (if (3 <? np_ndim x)%nat
               then List.filter (fun n => negb (n =? 1)%nat) (shape x)
               else shape x) /\
    np_size y = np_size x /\
    (length h <= base y)%nat /\
    uint8_view y (np_size x) h'.
Proof.
  intros Hx Hwf Hord.
  destruct (normalize_image_stages sqrt x h l Hx)
    as (x' & h5 & -> & Hv5 & Hlen5 & _ & Hrun).
  rewrite Hrun. apply String.eqb_neq in Hord. rewrite Hord.
  rewrite bind_ret.
  destruct (map_float_step (fclip 0 255) _ _ _ Hv5) as (v6 & E6 & Hv6).
  rewrite (bind_ok _ _ _ _ _ E6).
  destruct (astype_uint8_step _ _ _ Hv6) as (v7 & E7 & Hv7).
  rewrite E7. eexists _, _. split; [reflexivity|].
  assert (np_size (if (3 <? np_ndim x)%nat then np_squeeze x else x) = np_size x)
    as Hsize.
  { destruct (3 <? np_ndim x)%nat; [apply product_squeeze | reflexivity]. }
  assert (offset (if (3 <? np_ndim x)%nat then np_squeeze x else x) = offset x)
    as Hoff by (by destruct (3 <? np_ndim x)%nat).
  cbn [shape base]. split; [by destruct (3 <? np_ndim x)%nat|].
  split; [exact Hsize|].
  split; [rewrite length_app, Hlen5; simpl; lia|].
  rewrite Hsize, Hoff, length_window in Hv7.
  replace (Nat.min (np_size x) (length l - offset x)) with (np_size x) in Hv7 by lia.
  exact Hv7.
Qed.

(** Under the "th" ordering the array, after squeezing, must have three
    axes.  With three axes (c, r, k) the result has shape (r, k, c);
    with any other number the call raises [ValueError] at the transpose,
    and by then the caller's array has been overwritten exactly as a
    call that succeeds overwrites it. *)
Theorem normalize_image_th_ordering (x : ndarray) (h : heap) (l : list npfloat) :
  h !! base x = Some (FloatBuf l) ->
  (forall c r k,
     shape (if (3 <? np_ndim x)%nat then np_squeeze x else x) = [c; r; k] ->
     exists y h',
       normalize_image sqrt "th" x h = (Ok y, h') /\
       shape y = [r; k; c] /\
       uint8_view y (c * r * k) h') /\
  (length (shape (if (3 <? np_ndim x)%nat then np_squeeze x else x)) <> 3%nat ->
     (normalize_image sqrt "th" x h).1 = Raise ValueError /\
     (normalize_image sqrt "th" x h).2 !! base x
     = (normalize_image sqrt "tf" x h).2 !! base x).
Proof.
  intros Hx.
  pose proof (lookup_lt_Some _ _ _ Hx) as Hlt.
  destruct (normalize_image_stages sqrt x h l Hx)
    as (x' & h5 & -> & Hv5 & Hlen5 & _ & Hrun).
  split.
  - intros c r k Hsh. rewrite Hrun. cbn [String.eqb Ascii.eqb Bool.eqb].
    destruct (transpose_step _ _ _ c r k Hv5 Hsh) as (v6 & E6 & Hv6).
    rewrite (bind_ok _ _ _ _ _ E6).
    destruct (map_float_step (fclip 0 255) _ _ _ Hv6) as (v7 & E7 & Hv7).
    rewrite (bind_ok _ _ _ _ _ E7).
    destruct (astype_uint8_step _ _ _ Hv7) as (v8 & E8 & Hv8).
    rewrite E8. eexists _, _. split; [reflexivity|]. split; [reflexivity|].
    exact Hv8.
  - intros Hrank. rewrite !Hrun.
    change ("th" =? "th")%string with true. change ("tf" =? "th")%string with false.
    erewrite bind_raise by (apply transpose_wrong_rank; exact Hrank).
    split; [reflexivity|].
    rewrite bind_ret.
    destruct (map_float_step (fclip 0 255) _ _ _ Hv5) as (v6 & E6 & Hv6).
    rewrite (bind_ok _ _ _ _ _ E6).
    destruct (astype_uint8_step _ _ _ Hv6) as (v7 & E7 & Hv7).
    rewrite E7. simpl.
    rewrite !lookup_app_l by (rewrite ?length_app; simpl; lia). reflexivity.
Qed.

End NormalizeImageResults.

Lemma normalize_image_returns_uint8_image_witness :
  exists y h',
    normalize_image sqrt_at_zero "tf" example_saliency example_saliency_heap
    = (Ok y, h') /\
    shape y = [2]%nat /\
    np_size y = 2%nat /\
    (1 <= base y)%nat /\
    uint8_view y 2 h'.
Proof.
  apply (normalize_image_returns_uint8_image sqrt_at_zero "tf" example_saliency
           example_saliency_heap [Fin 3; Fin 3]).
  - reflexivity.
  - vm_compute. lia.
  - discriminate.
Defined.

Lemma normalize_image_th_ordering_witness :
  (exists y h',
     normalize_image sqrt_at_zero "th" example_th_image example_th_heap = (Ok y, h') /\
     shape y = [1; 2; 3]%nat /\
     uint8_view y (3 * 1 * 2) h') /\
  (normalize_image sqrt_at_zero "th" example_saliency example_saliency_heap).1
  = Raise ValueError /\
  (normalize_image sqrt_at_zero "th" example_saliency example_saliency_heap).2
    !! 0%nat
  = (normalize_image sqrt_at_zero "tf" example_saliency example_saliency_heap).2
      !! 0%nat.
Proof.
  split.
  - apply (proj1 (normalize_image_th_ordering sqrt_at_zero example_th_image
                    example_th_heap _ eq_refl) 3 1 2)%nat.
    reflexivity.
  - apply (proj2 (normalize_image_th_ordering sqrt_at_zero example_saliency
                    example_saliency_heap _ eq_refl)).
    vm_compute. lia.
Defined.

Lemma normalize_image_touches_only_its_argument_witness :
  (length example_image_heap
   <= length (normalize_image sqrt_at_zero "tf" example_heatmap example_image_heap).2)%nat /\
  (forall l, (l < length example_image_heap)%nat -> l <> base example_heatmap ->
     (normalize_image sqrt_at_zero "tf" example_heatmap example_image_heap).2 !! l
     = example_image_heap !! l) /\
  (forall y,
     (normalize_image sqrt_at_zero "tf" example_heatmap example_image_heap).1 = Ok y ->
     base y = base example_heatmap \/ (length example_image_heap <= base y)%nat).
Proof.
  apply (normalize_image_touches_only_its_argument sqrt_at_zero "tf"
           example_heatmap example_image_heap).
  vm_compute. reflexivity.
Defined.


(** ** [overlay_heatmap], step by step *)

Lemma minimum_255_ok (a : ndarray) (h : heap) (b : buffer) :
  h !! base a = Some b ->
  minimum_255 a h
  = (Ok {| base := length h; offset := 0; shape := shape a |},
     h ++ [match view a b with
           | FloatBuf l => FloatBuf (map (fun v => fmin v (Fin 255)) l)
           | UInt8Buf l => UInt8Buf (map (fun v => Z.min v 255) l)
           end]).
Proof.
  intros H. unfold minimum_255.
  rewrite (bind_ok _ _ _ _ _ (contents_ok _ _ _ H)). apply alloc_spec.
Qed.

Lemma times_255_ok (a : ndarray) (h : heap) (b : buffer) :
  h !! base a = Some b ->
  times_255 a h
  = (Ok {| base := length h; offset := 0; shape := shape a |},
     h ++ [match view a b with
           | FloatBuf l => FloatBuf (map (fun v => fmul (Fin 255) v) l)
           | UInt8Buf l => UInt8Buf (map (fun v => (255 * v) mod 256)%Z l)
           end]).
Proof.
  intros H. unfold times_255.
  rewrite (bind_ok _ _ _ _ _ (contents_ok _ _ _ H)). apply alloc_spec.
Qed.

Lemma applyColorMap_ok (jet : Z -> Z * Z * Z) (a : ndarray) (h : heap)
    (l : list Z) (r c : nat) :
  shape a = [S r; S c] ->
  h !! base a = Some (UInt8Buf l) ->
  applyColorMap jet a h
  = (Ok {| base := length h; offset := 0; shape := [S r; S c; 3%nat] |},
     h ++ [UInt8Buf (v ← window (offset a) (np_size a) l;
                     let '(cb, cg, cr) := jet v in [cb; cg; cr])]).
Proof.
  intros Hsh H. unfold applyColorMap. rewrite Hsh. cbn [colormap_shape].
  rewrite (bind_ok _ _ _ _ _ (contents_ok _ _ _ H)). apply alloc_spec.
Qed.

Lemma subtract_min_uint8_ok (a : ndarray) (h : heap) (l : list Z) (m : Z) :
  h !! base a = Some (UInt8Buf l) ->
  np_min_uint8 (window (offset a) (np_size a) l) = Ok m ->
  subtract_min_inplace a h
  = (Ok tt,
     <[base a := UInt8Buf (splice (offset a)
                             (map (fun v => (v - m) mod 256)%Z
                                (window (offset a) (np_size a) l)) l)]> h).
Proof.
  intros H Hm. unfold subtract_min_inplace, bind, get, put. rewrite H, Hm.
  reflexivity.
Qed.

Lemma length_indices (sh : list nat) : length (indices sh) = product sh.
Proof.
  induction sh as [|n sh IH]; [reflexivity|]. simpl.
  assert (forall s, length (i ← seq s n; cons i <$> indices sh)
                    = (n * product sh)%nat) as H.
  { induction n as [|n IHn]; intros s; [reflexivity|].
    simpl. rewrite length_app, length_fmap, IH, IHn. lia. }
  rewrite H. reflexivity.
Qed.

Lemma broadcast_shapes_same (sh : list nat) : broadcast_shapes sh sh = Some sh.
Proof.
  induction sh as [|n sh IH]; [reflexivity|]. simpl.
  unfold broadcast_dim. by rewrite Nat.eqb_refl, IH.
Qed.

Lemma broadcast_add_same (sh : list nat) (l m : list npfloat) :
  exists sum, broadcast_add sh l sh m = Ok (sh, sum) /\ length sum = product sh.
Proof.
  unfold broadcast_add, pad_shape.
  rewrite Nat.max_id, Nat.sub_diag. simpl. rewrite broadcast_shapes_same.
  eexists. split; [reflexivity|]. by rewrite length_fmap, length_indices.
Qed.

Lemma np_min_uint8_ok (l : list Z) :
  l <> [] -> exists m, np_min_uint8 l = Ok m.
Proof. destruct l; [done | simpl; eauto]. Qed.

Lemma window_nonempty {A} (off n : nat) (l : list A) :
  (0 < n)%nat -> (off < length l)%nat -> window off n l <> [].
Proof.
  intros Hn Hoff Hnil. apply (f_equal length) in Hnil.
  rewrite length_window in Hnil. simpl in Hnil. lia.
Qed.

Lemma np_min_uint8_spec (l : list Z) (m : Z) :
  np_min_uint8 l = Ok m -> m ∈ l /\ Forall (fun v => (m <= v)%Z) l.
Proof.
  destruct l as [|v vs]; [discriminate|]. intros [= <-].
  induction vs as [|x vs [IHin IHle]]; simpl.
  - split; [left | constructor; [lia | constructor]].
  - split.
    + destruct (Z.min_spec x (foldr Z.min v vs)) as [[_ ->]|[_ ->]].
      * right. left.
      * apply elem_of_cons in IHin as [->|IHin]; [left | right; right; exact IHin].
    + inversion IHle as [|? ? Hv Hvs]; subst.
      constructor; [lia|]. constructor; [lia|].
      eapply Forall_impl; [exact Hvs|]. simpl. lia.
Qed.

Section OverlayHeatmapResults.

Variable COLORMAP_JET : Z -> Z * Z * Z.

(** The run of [overlay_heatmap] on the arrays the script passes. *)
Lemma overlay_heatmap_run
    (image heatmap : ndarray) (h : heap) (n r c : nat)
    (li : list Z) (lh : list npfloat) :
  shape image = [S n; S r; S c; 3%nat] ->
  shape heatmap = [S r; S c] ->
  h !! base image = Some (UInt8Buf li) ->
  (offset image < length li)%nat ->
  h !! base heatmap = Some (FloatBuf lh) ->
  exists m y h',
    np_min_uint8 (window (offset image) (product [S r; S c; 3%nat]) li) = Ok m /\
    overlay_heatmap COLORMAP_JET image heatmap h = (Ok y, h') /\
    shape y = [S r; S c; 3%nat] /\
    offset y = 0%nat /\
    (length h <= base y)%nat /\
    h' !! base image
    = Some (UInt8Buf (splice (offset image)
                        (map (fun v => (v - m) mod 256)%Z
                           (window (offset image) (product [S r; S c; 3%nat]) li))
                        li)) /\
    uint8_view y (S r * S c * 3) h'.
Proof.
  intros Hsi Hsh Hi Hoff Hh.
  assert (base heatmap <> base image) as Hne by (intros E; rewrite E in Hh; congruence).
  pose proof (lookup_lt_Some _ _ _ Hi) as Hlti.
  pose proof (lookup_lt_Some _ _ _ Hh) as Hlth.
  unfold overlay_heatmap, first_along_axis0. rewrite Hsi, bind_ret.
  destruct (np_min_uint8_ok
              (window (offset image) (product [S r; S c; 3%nat]) li)) as [m Hm].
  { apply window_nonempty; [|exact Hoff]. unfold product. simpl. lia. }
  rewrite (bind_ok _ _ _ _ _
             (subtract_min_uint8_ok
                {| base := base image; offset := offset image;
                   shape := [S r; S c; 3%nat] |} h li m Hi Hm)).
  cbn [base offset].
  set (h1 := <[base image := _]> h).
  assert (length h1 = length h) as Hlen1 by apply length_insert.
  assert (exists b1, h1 !! base image = Some b1 /\
            b1 = UInt8Buf (splice (offset image)
                             (map (fun v => (v - m) mod 256)%Z
                                (window (offset image) (product [S r; S c; 3%nat]) li))
                             li)) as (b1 & Hb1 & Hb1')
    by (eexists; split; [by apply list_lookup_insert_eq | reflexivity]).
  assert (h1 !! base heatmap = Some (FloatBuf lh)) as Hh1
    by (subst h1; by rewrite list_lookup_insert_ne).
  clearbody h1.
  rewrite (bind_ok _ _ _ _ _
             (minimum_255_ok {| base := base image; offset := offset image;
                                shape := [S r; S c; 3%nat] |} h1 b1 Hb1)).
  cbn [shape].
  set (b2 := match view _ b1 with FloatBuf _ => _ | UInt8Buf _ => _ end).
  clearbody b2.
  erewrite bind_ok by (apply times_255_ok; rewrite lookup_app_l by lia; exact Hh1).
  set (b3 := match view heatmap _ with FloatBuf _ => _ | UInt8Buf _ => _ end).
  assert (exists l3, b3 = FloatBuf l3) as [l3 ->] by (subst b3; simpl; eauto).
  erewrite bind_ok by (apply astype_uint8_ok; apply lookup_app_new).
  cbn [shape view].
  erewrite bind_ok by (eapply applyColorMap_ok; [exact Hsh | apply lookup_app_new]).
  erewrite bind_ok by (apply contents_ok; apply lookup_app_new).
  erewrite bind_ok
    by (apply contents_ok; cbn [base];
        rewrite !lookup_app_l by (rewrite ?length_app; simpl; lia);
        apply lookup_app_new).
  cbn [shape].
  match goal with
  | |- context [broadcast_add ?s ?l ?s ?m] =>
      destruct (broadcast_add_same s l m) as (sum & -> & Hsum)
  end.
  destruct sum as [|v vs]; [unfold product in Hsum; simpl in Hsum; lia|].
  cbn [np_max_float].
  rewrite (bind_ok _ _ _ _ _ (alloc_spec _ _ _)).
  erewrite astype_uint8_ok by apply lookup_app_new.
  exists m. eexists _, _. split; [exact Hm|].
  split; [reflexivity|]. cbn [shape offset base].
  split; [reflexivity|]. split; [reflexivity|].
  split; [repeat rewrite length_app; simpl; lia|].
  split.
  { rewrite !lookup_app_l by (repeat rewrite length_app; simpl; lia).
    rewrite Hb1, Hb1'. reflexivity. }
  eexists. split; [apply lookup_app_new|]. cbn [view offset].
  split.
  - rewrite length_window, length_map, length_window, length_map, Hsum.
    unfold np_size, product. simpl. lia.
  - unfold window at 1. apply Forall_take, Forall_drop, Forall_forall.
    intros z Hz. apply list_elem_of_fmap in Hz as (w & -> & _).
    apply to_uint8_range.
Qed.

(** For a batch of 3-channel 8-bit images and a floating heat map of
    the size of one image, the arrays the script passes,
    [overlay_heatmap] returns a new [uint8] image of that size, with
    every byte in [0, 255]. *)
Theorem overlay_heatmap_returns_bgr_image
    (image heatmap : ndarray) (h : heap) (n r c : nat)
    (li : list Z) (lh : list npfloat) :
  shape image = [S n; S r; S c; 3%nat] ->
  shape heatmap = [S r; S c] ->
  h !! base image = Some (UInt8Buf li) ->
  (offset image < length li)%nat ->
  h !! base heatmap = Some (FloatBuf lh) ->
  exists y h',
    overlay_heatmap COLORMAP_JET image heatmap h = (Ok y, h') /\
    shape y = [S r; S c; 3%nat] /\
    offset y = 0%nat /\
    (length h <= base y)%nat /\
    uint8_view y (S r * S c * 3) h'.
Proof.
  intros Hsi Hsh Hi Hoff Hh.
  destruct (overlay_heatmap_run image heatmap h n r c li lh Hsi Hsh Hi Hoff Hh)
    as (m & y & h' & _ & Hrun & Hshape & Hoffy & Hfresh & _ & Hview).
  exists y, h'. auto.
Qed.

(** What the call does to the caller's batch: every byte of the first
    image is lowered by the smallest byte of that image, so that its
    minimum becomes 0, and the other images of the batch are left as
    they were. *)
Theorem overlay_heatmap_shifts_first_image
    (image heatmap : ndarray) (h : heap) (n r c : nat)
    (li : list Z) (lh : list npfloat) :
  shape image = [S n; S r; S c; 3%nat] ->
  shape heatmap = [S r; S c] ->
  h !! base image = Some (UInt8Buf li) ->
  offset image = 0%nat ->
  (S r * S c * 3 <= length li)%nat ->
  Forall (fun v => (0 <= v <= 255)%Z) li ->
  h !! base heatmap = Some (FloatBuf lh) ->
  exists m,
    m ∈ take (S r * S c * 3) li /\
    Forall (fun v => (m <= v)%Z) (take (S r * S c * 3) li) /\
    (overlay_heatmap COLORMAP_JET image heatmap h).2 !! base image
    = Some (UInt8Buf (map (fun v => v - m)%Z (take (S r * S c * 3) li)
                      ++ drop (S r * S c * 3) li)).
Proof.
  intros Hsi Hsh Hi Hoff Hlen Hbytes Hh.
  destruct (overlay_heatmap_run image heatmap h n r c li lh Hsi Hsh Hi
              ltac:(lia) Hh)
    as (m & y & h' & Hm & Hrun & _ & _ & _ & Himage & _).
  rewrite Hrun. cbn [snd]. rewrite Himage, Hoff. clear Hrun Himage.
  assert (product [S r; S c; 3%nat] = (S r * S c * 3)%nat) as Hp
    by (unfold product; simpl; lia).
  rewrite Hp in *. rewrite Hoff in Hm. unfold window in *. rewrite drop_0 in *.
  set (k := (S r * S c * 3)%nat) in *. clearbody k.
  destruct (np_min_uint8_spec _ _ Hm) as [Hin Hle].
  exists m. split; [exact Hin|]. split; [exact Hle|].
  f_equal. f_equal. unfold splice. rewrite take_0, length_map, length_take.
  simpl. replace (k `min` length li)%nat with k by lia. f_equal.
  apply map_ext_in. intros v Hv.
  assert (m <= v)%Z
    by (eapply Forall_forall in Hle; [exact Hle | by apply list_elem_of_In]).
  assert (0 <= m)%Z.
  { apply (subseteq_take k li) in Hin.
    eapply Forall_forall in Hbytes; [|exact Hin]. lia. }
  assert (v <= 255)%Z.
  { apply list_elem_of_In, (subseteq_take k li) in Hv.
    eapply Forall_forall in Hbytes; [|exact Hv]. lia. }
  apply Z.mod_small. lia.
Qed.

End OverlayHeatmapResults.

Lemma broadcast_add_mismatch (r c r' c' : nat) (l m : list npfloat) :
  broadcast_dim r r' = None \/ broadcast_dim c c' = None ->
  broadcast_add [r; c; 3%nat] l [r'; c'; 3%nat] m = Raise ValueError.
Proof.
  intros H. unfold broadcast_add.
  cbn [length Nat.max pad_shape Nat.sub replicate app broadcast_shapes].
  unfold pad_shape. cbn [length Nat.sub replicate app broadcast_shapes].
  destruct H as [-> | H]; [reflexivity|].
  rewrite H. by destruct (broadcast_dim r r').
Qed.

Section OverlayHeatmapFailures.

Variable COLORMAP_JET : Z -> Z * Z * Z.

(** Two ways [overlay_heatmap] fails.  An image array without a batch
    axis and a second axis, or with an empty batch, raises [IndexError]
    at [image[0, :]] and nothing has been touched.  A two-axis heat map
    whose rows or columns do not broadcast against those of the images
    raises [ValueError] at the addition of line 134, and by then the
    first image of the caller's batch has had its minimum subtracted. *)
Theorem overlay_heatmap_failures (image heatmap : ndarray) (h : heap) :
  ((forall n d rest, shape image <> S n :: d :: rest) ->
     overlay_heatmap COLORMAP_JET image heatmap h = (Raise IndexError, h)) /\
  (forall n r' c' r c li lh m,
     shape image = [S n; r'; c'; 3%nat] ->
     shape heatmap = [S r; S c] ->
     h !! base image = Some (UInt8Buf li) ->
     np_min_uint8 (window (offset image) (product [r'; c'; 3%nat]) li) = Ok m ->
     h !! base heatmap = Some (FloatBuf lh) ->
     broadcast_dim (S r) r' = None \/ broadcast_dim (S c) c' = None ->
     (overlay_heatmap COLORMAP_JET image heatmap h).1 = Raise ValueError /\
     (overlay_heatmap COLORMAP_JET image heatmap h).2 !! base image
     = Some (UInt8Buf (splice (offset image)
                         (map (fun v => (v - m) mod 256)%Z
                            (window (offset image) (product [r'; c'; 3%nat]) li))
                         li))).
Proof.
  split.
  - intros H. unfold overlay_heatmap, first_along_axis0.
    destruct (shape image) as [|[|n] [|d rest]]; try reflexivity.
    by destruct (H n d rest).
  - intros n r' c' r c li lh m Hsi Hsh Hi Hm Hh Hbad.
    assert (base heatmap <> base image) as Hne
      by (intros E; rewrite E in Hh; congruence).
    pose proof (lookup_lt_Some _ _ _ Hi) as Hlti.
    pose proof (lookup_lt_Some _ _ _ Hh) as Hlth.
    unfold overlay_heatmap, first_along_axis0. rewrite Hsi, bind_ret.
    rewrite (bind_ok _ _ _ _ _
               (subtract_min_uint8_ok
                  {| base := base image; offset := offset image;
                     shape := [r'; c'; 3%nat] |} h li m Hi Hm)).
    cbn [base offset].
    set (h1 := <[base image := _]> h).
    assert (length h1 = length h) as Hlen1 by apply length_insert.
    assert (exists b1, h1 !! base image = Some b1 /\
              b1 = UInt8Buf (splice (offset image)
                               (map (fun v => (v - m) mod 256)%Z
                                  (window (offset image) (product [r'; c'; 3%nat]) li))
                               li)) as (b1 & Hb1 & Hb1')
      by (eexists; split; [by apply list_lookup_insert_eq | reflexivity]).
    assert (h1 !! base heatmap = Some (FloatBuf lh)) as Hh1
      by (subst h1; by rewrite list_lookup_insert_ne).
    clearbody h1.
    rewrite (bind_ok _ _ _ _ _
               (minimum_255_ok {| base := base image; offset := offset image;
                                  shape := [r'; c'; 3%nat] |} h1 b1 Hb1)).
    cbn [shape].
    set (b2 := match view _ b1 with FloatBuf _ => _ | UInt8Buf _ => _ end).
    clearbody b2.
    erewrite bind_ok by (apply times_255_ok; rewrite lookup_app_l by lia; exact Hh1).
    set (b3 := match view heatmap _ with FloatBuf _ => _ | UInt8Buf _ => _ end).
    assert (exists l3, b3 = FloatBuf l3) as [l3 ->] by (subst b3; simpl; eauto).
    erewrite bind_ok by (apply astype_uint8_ok; apply lookup_app_new).
    cbn [shape view].
    erewrite bind_ok by (eapply applyColorMap_ok; [exact Hsh | apply lookup_app_new]).
    erewrite bind_ok by (apply contents_ok; apply lookup_app_new).
    erewrite bind_ok
      by (apply contents_ok; cbn [base];
          rewrite !lookup_app_l by (rewrite ?length_app; simpl; lia);
          apply lookup_app_new).
    cbn [shape].
    rewrite (broadcast_add_mismatch _ _ _ _ _ _ Hbad).
    split; [reflexivity|]. cbn [snd raise].
    rewrite !lookup_app_l by (repeat rewrite length_app; simpl; lia).
    by rewrite Hb1, Hb1'.
Qed.

End OverlayHeatmapFailures.

Lemma overlay_heatmap_touches_only_the_image_witness :
    (overlay_heatmap example_colormap example_image example_heatmap example_image_heap).2
      !! base example_heatmap
    = example_image_heap !! base example_heatmap.
Proof.
  apply (overlay_heatmap_touches_only_the_image example_colormap example_image example_heatmap
           example_image_heap _ _ (surjective_pairing _)).
  - vm_compute. lia.
  - discriminate.
Defined.

Lemma overlay_heatmap_returns_bgr_image_witness :
  exists y h',
    overlay_heatmap example_colormap example_image example_heatmap example_image_heap
    = (Ok y, h') /\
    shape y = [1; 1; 3]%nat /\
    offset y = 0%nat /\
    (length example_image_heap <= base y)%nat /\
    uint8_view y (1 * 1 * 3) h'.
Proof.
  apply (overlay_heatmap_returns_bgr_image example_colormap example_image example_heatmap
           example_image_heap 0 0 0 [5; 7; 9]%Z [Fin 1]);
    first [reflexivity | vm_compute; lia].
Defined.

Lemma overlay_heatmap_shifts_first_image_witness :
  exists m,
    m ∈ take (1 * 1 * 3) [5; 7; 9]%Z /\
    Forall (fun v => (m <= v)%Z) (take (1 * 1 * 3) [5; 7; 9]%Z) /\
    (overlay_heatmap example_colormap example_image example_heatmap example_image_heap).2
      !! base example_image
    = Some (UInt8Buf (map (fun v => v - m)%Z (take (1 * 1 * 3) [5; 7; 9]%Z)
                      ++ drop (1 * 1 * 3) [5; 7; 9]%Z)).
Proof.
  apply (overlay_heatmap_shifts_first_image example_colormap example_image example_heatmap
           example_image_heap 0 0 0 [5; 7; 9]%Z [Fin 1]);
    first [reflexivity | vm_compute; lia | idtac].
  repeat constructor; vm_compute; discriminate.
Defined.

Lemma overlay_heatmap_failures_witness :
    overlay_heatmap example_colormap
      {| base := 0; offset := 0; shape := [3]%nat |} example_heatmap example_image_heap
    = (Raise IndexError, example_image_heap) /\
    (overlay_heatmap example_colormap example_mismatch_image example_mismatch_heatmap
       example_mismatch_heap).1
    = Raise ValueError /\
    (overlay_heatmap example_colormap example_mismatch_image example_mismatch_heatmap
       example_mismatch_heap).2 !! 0%nat
    = Some (UInt8Buf [0; 2; 4; 6; 8; 10; 12; 14; 16; 18; 20; 22]%Z).
Proof.
  split.
  - apply (proj1 (overlay_heatmap_failures example_colormap
                    {| base := 0; offset := 0; shape := [3]%nat |}
                    example_heatmap example_image_heap)).
    intros n d rest. discriminate.
  - apply (proj2 (overlay_heatmap_failures example_colormap example_mismatch_image
                    example_mismatch_heatmap example_mismatch_heap)
             0%nat 2%nat 2%nat 2%nat 2%nat
             [5; 7; 9; 11; 13; 15; 17; 19; 21; 23; 25; 27]%Z
             [Fin 0; Fin 0; Fin 0; Fin 0; Fin 1; Fin 0; Fin 0; Fin 0; Fin 0] 5%Z);
      try reflexivity.
    left. reflexivity.
Defined.

(** * alexnet.py *)

(** ** The batch generator *)

Lemma mod_succ_wrap (index bs : nat) :
  (index mod bs + 1 = bs)%nat -> ((index + 1) mod bs = 0)%nat.
Proof.
  intros H. symmetry. apply (Nat.mod_unique _ _ (S (index / bs))); [lia|].
  pose proof (Nat.div_mod_eq index bs). nia.
Qed.

Lemma mod_succ_next (index bs : nat) :
  (index mod bs + 1 < bs)%nat -> ((index + 1) mod bs = index mod bs + 1)%nat.
Proof.
  intros H. symmetry. apply (Nat.mod_unique _ _ (index / bs)); [lia|].
  pose proof (Nat.div_mod_eq index bs). nia.
Qed.

Lemma to_categorical_ok (y : list nat) (num_classes : nat) :
  Forall (fun label => (label < num_classes)%nat) y ->
  alexnet.to_categorical y num_classes = Ok (alexnet.one_hot num_classes <$> y).
Proof.
  intros H. unfold alexnet.to_categorical.
  replace (forallb _ y) with true; [reflexivity|].
  symmetry. apply forallb_forall. intros label Hin.
  apply Nat.ltb_lt. eapply Forall_forall in H; [exact H|].
  by apply list_elem_of_In.
Qed.

Section GeneratorFacts.

Variable image : Type.
Variable cv2_resize_image : image -> nat * nat -> result image.
Variables (batch_size class_count image_height image_width : nat).
Variable y_data : list nat.

(** The [for] loop on well-formed data, from any position: it cuts
    what it has collected and what is left into full batches. *)
Lemma for_loop_batches (rest : list image) :
  (0 < batch_size)%nat ->
  forall (P : list image) (ys : list nat) (index : nat) (X : list image) (Y : list nat),
    Forall2 (fun x p => alexnet.preprocess_image image cv2_resize_image x
                          image_height image_width = Ok p) rest P ->
    take (length rest) (drop index y_data) = ys ->
    length ys = length rest ->
    Forall (fun label => (label < class_count)%nat) (Y ++ ys) ->
    length X = (index mod batch_size)%nat ->
    length Y = (index mod batch_size)%nat ->
    exists batches,
      alexnet.for_loop image cv2_resize_image batch_size class_count
        image_height image_width y_data rest index X Y = (batches, alexnet.Exhausted) /\
      length batches = ((length X + length rest) / batch_size)%nat /\
      Forall (fun b : alexnet.batch image =>
                length b.1 = batch_size /\ length b.2 = batch_size) batches /\
      concat (fst <$> batches)
      = take ((length X + length rest) / batch_size * batch_size) (X ++ P) /\
      concat (snd <$> batches)
      = alexnet.one_hot class_count
          <$> take ((length X + length rest) / batch_size * batch_size) (Y ++ ys).
Proof.
  intros Hbs. induction rest as [|x rest IH];
    intros P ys index X Y HP Hys Hlen Hlabels HX HY.
  - destruct ys; [|discriminate]. inversion HP; subst.
    pose proof (Nat.mod_upper_bound index batch_size ltac:(lia)) as Hlt.
    exists []. simpl. rewrite Nat.add_0_r.
    rewrite Nat.div_small by lia. simpl. rewrite !take_0. auto.
  - destruct ys as [|y ys']; [discriminate|].
    inversion HP as [|? p ? P' Hp HP']; subst.
    simpl in Hlen. injection Hlen as Hlen.
    assert (y_data !! index = Some y /\
            take (length rest) (drop (S index) y_data) = ys') as [Hy Hys'].
    { destruct (y_data !! index) as [y0|] eqn:E.
      - rewrite (drop_S _ _ _ E) in Hys. simpl in Hys. by injection Hys as -> ->.
      - apply lookup_ge_None in E. rewrite drop_ge in Hys by lia. discriminate. }
    pose proof (Nat.mod_upper_bound index batch_size ltac:(lia)) as Hlt.
    cbn [alexnet.for_loop]. rewrite Hp, Hy.
    destruct (batch_size =? 0)%nat eqn:E0; [apply Nat.eqb_eq in E0; lia|].
    destruct ((index + 1) mod batch_size =? 0)%nat eqn:Emod.
    + apply Nat.eqb_eq in Emod.
      assert (index mod batch_size + 1 = batch_size)%nat as Hfull.
      { destruct (Nat.lt_ge_cases (index mod batch_size + 1) batch_size) as [Hs|Hs];
          [rewrite (mod_succ_next _ _ Hs) in Emod|]; lia. }
      rewrite to_categorical_ok
        by (apply Forall_app; split;
            [by apply Forall_app in Hlabels as [? _]
            | constructor; [|constructor];
              apply Forall_app in Hlabels as [_ Hl]; by inversion Hl]).
      destruct (IH P' ys' (S index) [] []) as (later & Hrun & Hn & Hsize & Hfst & Hsnd);
        try done.
      { apply Forall_app in Hlabels as [_ Hl]. by inversion Hl. }
      { replace (S index) with (index + 1)%nat by lia. simpl. by rewrite Emod. }
      { replace (S index) with (index + 1)%nat by lia. simpl. by rewrite Emod. }
      rewrite Hrun. eexists. split; [reflexivity|].
      simpl in Hn, Hfst, Hsnd.
      assert ((length X + S (length rest)) / batch_size
              = S (length rest / batch_size))%nat as Hdiv.
      { replace (length X + S (length rest))%nat
          with (1 * batch_size + length rest)%nat by lia.
        rewrite Nat.div_add_l by lia. lia. }
      cbn [length fmap list_fmap concat fst snd]. rewrite Hdiv, Hn.
      split; [reflexivity|]. split.
      { constructor; [|exact Hsize]. simpl.
        rewrite length_app, length_fmap, length_app. simpl. lia. }
      replace (S (length rest / batch_size) * batch_size)%nat
        with (batch_size + length rest / batch_size * batch_size)%nat by lia.
      split.
      * change (x :: rest) with ([x] ++ rest).
        replace (X ++ p :: P') with ((X ++ [p]) ++ P') by (by rewrite <- app_assoc).
        rewrite take_app_add' by (rewrite length_app; simpl; lia).
        f_equal. exact Hfst.
      * replace (Y ++ y :: ys') with ((Y ++ [y]) ++ ys') by (by rewrite <- app_assoc).
        rewrite take_app_add' by (rewrite length_app; simpl; lia).
        rewrite Hsnd, !fmap_app. reflexivity.
    + apply Nat.eqb_neq in Emod.
      assert (index mod batch_size + 1 < batch_size)%nat as Hroom.
      { destruct (Nat.lt_ge_cases (index mod batch_size + 1) batch_size) as [Hs|Hs];
          [exact Hs|]. exfalso. apply Emod, mod_succ_wrap. lia. }
      destruct (IH P' ys' (S index) (X ++ [p]) (Y ++ [y]))
        as (later & Hrun & Hn & Hsize & Hfst & Hsnd); try done.
      { by rewrite <- app_assoc. }
      { replace (S index) with (index + 1)%nat by lia.
        rewrite (mod_succ_next _ _ Hroom), length_app. simpl. lia. }
      { replace (S index) with (index + 1)%nat by lia.
        rewrite (mod_succ_next _ _ Hroom), length_app. simpl. lia. }
      rewrite Hrun. exists later. split; [reflexivity|].
      rewrite length_app in Hn, Hfst, Hsnd. simpl in Hn, Hfst, Hsnd.
      replace (length X + 1 + length rest)%nat
        with (length X + S (length rest))%nat in * by lia.
      rewrite <- !app_assoc in Hfst, Hsnd. simpl in Hfst, Hsnd.
      simpl. auto.
Qed.

End GeneratorFacts.

Section GeneratorResults.

Variable image : Type.
Variable cv2_resize_image : image -> nat * nat -> result image.
Variables (batch_size class_count image_height image_width : nat).
Variables (x_data : list image) (y_data : list nat).

(** On well-formed data (a positive batch size, every image resizable,
    a label below [class_count] for every image) the generator never
    raises, and every pass over the data yields the same
    [len(x_data) // batch_size] batches: each holds exactly [batch_size]
    images with their one-hot labels, in data order.  The last
    [len(x_data) % batch_size] samples are never yielded. *)
Theorem generator_yields_full_batches (P : list image) :
  (0 < batch_size)%nat ->
  Forall2 (fun x p => alexnet.preprocess_image image cv2_resize_image x
                        image_height image_width = Ok p) x_data P ->
  (length x_data <= length y_data)%nat ->
  Forall (fun label => (label < class_count)%nat) (take (length x_data) y_data) ->
  exists batches,
    (forall passes,
       alexnet.generator image cv2_resize_image batch_size class_count
         image_height image_width x_data y_data passes
       = (concat (replicate passes batches), None)) /\
    length batches = (length x_data / batch_size)%nat /\
    Forall (fun b : alexnet.batch image =>
              length b.1 = batch_size /\ length b.2 = batch_size) batches /\
    concat (fst <$> batches)
    = take (length x_data / batch_size * batch_size) P /\
    concat (snd <$> batches)
    = alexnet.one_hot class_count
        <$> take (length x_data / batch_size * batch_size) y_data.
Proof.
  intros Hbs HP Hlen Hlabels.
  destruct (for_loop_batches image cv2_resize_image batch_size class_count
              image_height image_width y_data x_data Hbs P
              (take (length x_data) y_data) 0 [] [])
    as (batches & Hrun & Hn & Hsize & Hfst & Hsnd); try done.
  { rewrite length_take. lia. }
  { simpl. by rewrite Nat.Div0.mod_0_l. }
  { simpl. by rewrite Nat.Div0.mod_0_l. }
  exists batches. simpl in Hn, Hfst, Hsnd.
  split; [|split; [exact Hn|split; [exact Hsize|split; [exact Hfst|]]]].
  - induction passes as [|passes IH]; [reflexivity|].
    cbn [alexnet.generator]. rewrite Hrun, IH. reflexivity.
  - rewrite Hsnd, take_take. f_equal. f_equal.
    pose proof (Nat.Div0.mul_div_le (length x_data) batch_size). lia.
Qed.

Lemma for_loop_no_batch (rest : list image) :
  forall index X Y,
    (index + length rest < batch_size)%nat ->
    (alexnet.for_loop image cv2_resize_image batch_size class_count
       image_height image_width y_data rest index X Y).1 = [].
Proof.
  induction rest as [|x rest IH]; intros index X Y Hlt; [reflexivity|].
  cbn [alexnet.for_loop].
  destruct (alexnet.preprocess_image _ _ _ _ _) as [p|e]; [|reflexivity].
  destruct (y_data !! index) as [y|]; [|reflexivity].
  destruct (batch_size =? 0)%nat; [reflexivity|].
  simpl in Hlt.
  rewrite (Nat.mod_small (index + 1) batch_size) by lia.
  replace (index + 1 =? 0)%nat with false by (symmetry; apply Nat.eqb_neq; lia).
  apply IH. lia.
Qed.

(** With fewer samples than [batch_size] the generator never yields a
    batch, however long it runs: a consumer waits for ever (or gets the
    exception, if the data make the loop raise). *)
Theorem generator_starves_on_small_data (passes : nat) :
  (length x_data < batch_size)%nat ->
  (alexnet.generator image cv2_resize_image batch_size class_count
     image_height image_width x_data y_data passes).1 = [].
Proof.
  intros Hlt. induction passes as [|passes IH]; [reflexivity|].
  cbn [alexnet.generator].
  pose proof (for_loop_no_batch x_data 0 [] [] ltac:(simpl; lia)) as Hnone.
  destruct (alexnet.for_loop _ _ _ _ _ _ _ _ _ _ _) as [batches e].
  simpl in Hnone. subst batches.
  destruct e; [|reflexivity..].
  destruct (alexnet.generator _ _ _ _ _ _ _ _ _) as [later e'].
  simpl in IH. subst later. reflexivity.
Qed.

End GeneratorResults.

(** A batch size of 0 ends the generator in [ZeroDivisionError] at the
    first sample, before any batch; on an empty data set the generator
    neither yields nor raises, whatever the batch size. *)
Theorem generator_batch_size_zero
    (image : Type) (cv2_resize_image : image -> nat * nat -> result image)
    (class_count image_height image_width : nat)
    (x : image) (p : image) (x_data : list image) (y : nat) (y_data : list nat)
    (passes : nat) :
  alexnet.preprocess_image image cv2_resize_image x image_height image_width = Ok p ->
  alexnet.generator image cv2_resize_image 0 class_count image_height image_width
    (x :: x_data) (y :: y_data) (S passes)
  = ([], Some alexnet.ZeroDivisionError) /\
  forall batch_size,
    alexnet.generator image cv2_resize_image batch_size class_count
      image_height image_width [] (y :: y_data) passes
    = ([], None).
Proof.
  intros Hp. split.
  - cbn [alexnet.generator alexnet.for_loop]. rewrite Hp. reflexivity.
  - intros batch_size. induction passes as [|passes IH]; [reflexivity|].
    cbn [alexnet.generator alexnet.for_loop]. rewrite IH. reflexivity.
Qed.

Lemma generator_yields_full_batches_witness :
  exists batches,
    (forall passes,
       alexnet.generator nat example_resize 2 3 224 224
         example_x_data example_y_data passes
       = (concat (replicate passes batches), None)) /\
    length batches = (length example_x_data / 2)%nat /\
    Forall (fun b : alexnet.batch nat =>
              length b.1 = 2%nat /\ length b.2 = 2%nat) batches /\
    concat (fst <$> batches)
    = take (length example_x_data / 2 * 2) example_x_data /\
    concat (snd <$> batches)
    = alexnet.one_hot 3 <$> take (length example_x_data / 2 * 2) example_y_data.
Proof.
  apply (generator_yields_full_batches nat example_resize 2 3 224 224
           example_x_data example_y_data example_x_data).
  - lia.
  - repeat constructor.
  - simpl. lia.
  - repeat constructor.
Defined.

Lemma generator_starves_on_small_data_witness :
  (alexnet.generator nat example_resize 6 3 224 224
     example_x_data example_y_data 4).1 = [].
Proof.
  apply (generator_starves_on_small_data nat example_resize 6 3 224 224
           example_x_data example_y_data 4).
  simpl. lia.
Defined.

Lemma generator_batch_size_zero_witness :
  alexnet.generator nat example_resize 0 3 224 224
    example_x_data example_y_data 3
  = ([], Some alexnet.ZeroDivisionError) /\
  forall batch_size,
    alexnet.generator nat example_resize batch_size 3 224 224 [] example_y_data 2
    = ([], None).
Proof.
  apply (generator_batch_size_zero nat example_resize 3 224 224
           10%nat 10%nat [11; 12; 13; 14]%nat 0%nat [1; 2; 0; 1]%nat 2).
  reflexivity.
Defined.

(** ** The training script never reaches its save *)



Lemma evaluate_generator_needs_generator :
  alexnet.bind_arguments alexnet.evaluate_generator_parameters 1 0 [] = Raise TypeError.
Proof. vm_compute. reflexivity. Qed.

Lemma bind_lift_ok {S A B} (a : A) (k : A -> M S B) (s : S) :
  (x <- lift_result (Ok a) ;; k x) s = k a s.
Proof. reflexivity. Qed.

Lemma bind_lift_raise {S A B} (e : exn) (k : A -> M S B) (s : S) :
  (x <- lift_result (Raise e) ;; k x) s = (Raise e, s).
Proof. reflexivity. Qed.

Section AlexnetScript.

Variable build_model : nat -> result unit.
Variable summary : result unit.
Variable compile : result unit.
Variable fit_generator :
  (nat -> list (alexnet.batch picture) * option alexnet.loop_end) -> result unit.
Variable evaluate_generator : result (list string).
Variable save_weights : string -> result unit.
Variable cifar100_load_data : result dataset.
Variable cv2_resize_image : picture -> nat * nat -> result picture.



End AlexnetScript.

(** ** [grad_cam] on maps without positive evidence *)

Lemma Qsum_nonpos (l : list Q) : Forall (fun x => (x <= 0)%Q) l -> (Qsum l <= 0)%Q.
Proof.
  induction 1 as [|x l Hx _ IH]; simpl; [lra|]. lra.
Qed.

Lemma linear_tap_index (src_len dst_len d : nat) :
  (0 < src_len)%nat -> ((linear_tap src_len dst_len d).1 < src_len)%nat.
Proof.
  intros Hlen. unfold linear_tap.
  set (f := ((Qnat d + (1 # 2)) * (Qnat src_len / Qnat dst_len) - (1 # 2))%Q).
  clearbody f.
  destruct (Qfloor f <? 0)%Z eqn:E1; [simpl; lia|].
  destruct (Z.of_nat src_len - 1 <=? Qfloor f)%Z eqn:E2; [simpl; lia|].
  simpl. apply Z.ltb_ge in E1. apply Z.leb_gt in E2. lia.
Qed.

(** Resizing an image whose pixels all equal [v] gives an image whose
    pixels all equal [v]. *)
Lemma bilinear_constant (src : list (list Q)) (rows cols dst_rows dst_cols r c : nat)
    (v : Q) :
  (0 < rows)%nat -> (0 < cols)%nat ->
  (forall i j, (i < rows)%nat -> (j < cols)%nat -> (pixel src i j == v)%Q) ->
  (bilinear src rows cols dst_rows dst_cols r c == v)%Q.
Proof.
  intros Hr Hc Hsrc. unfold bilinear.
  pose proof (linear_tap_index rows dst_rows r Hr) as Hy.
  pose proof (linear_tap_index cols dst_cols c Hc) as Hx.
  destruct (linear_tap rows dst_rows r) as [sy fy].
  destruct (linear_tap cols dst_cols c) as [sx fx]. simpl in Hx, Hy.
  rewrite !Hsrc by lia. ring.
Qed.

Lemma cv2_resize_constant (rows cols : nat) (src dst : list (list Q)) (w h : nat)
    (v : Q) :
  (forall i j, (i < rows)%nat -> (j < cols)%nat -> (pixel src i j == v)%Q) ->
  cv2_resize rows cols src (w, h) = Ok dst ->
  Forall (Forall (fun x => (x == v)%Q)) dst.
Proof.
  intros Hsrc. unfold cv2_resize.
  destruct (rows =? 0)%nat eqn:E1; [discriminate|].
  destruct (cols =? 0)%nat eqn:E2; [discriminate|].
  destruct (w =? 0)%nat eqn:E3; [discriminate|].
  destruct (h =? 0)%nat eqn:E4; [discriminate|]. simpl.
  intros [= <-]. apply Nat.eqb_neq in E1, E2.
  apply Forall_fmap, Forall_forall. intros r _. simpl.
  apply Forall_fmap, Forall_forall. intros c _. simpl.
  apply bilinear_constant; [lia | lia | exact Hsrc].
Qed.

Lemma pixel_fmap_seq (rows cols : nat) (f : nat -> nat -> Q) (i j : nat) :
  (i < rows)%nat -> (j < cols)%nat ->
  pixel ((fun r => (fun c => f r c) <$> seq 0 cols) <$> seq 0 rows) i j = f i j.
Proof.
  intros Hi Hj. unfold pixel.
  rewrite (nth_lookup_Some _ _ _ ((fun c => f i c) <$> seq 0 cols)).
  - rewrite (nth_lookup_Some _ _ _ (f i j)); [reflexivity|].
    rewrite list_lookup_fmap, lookup_seq_lt by lia. reflexivity.
  - rewrite list_lookup_fmap, lookup_seq_lt by lia. reflexivity.
Qed.

Lemma pixel_relu_dot (output : tensor3) (weights : list Q) (cam : list (list Q))
    (i j : nat) :
  np_dot output weights = Ok cam ->
  (i < t_rows output)%nat -> (j < t_cols output)%nat ->
  pixel (map (map (Qmax 0)) cam) i j
  = Qmax 0 (Qsum ((fun k => (t_at output i j k * nth k weights 0)%Q)
                    <$> seq 0 (t_chans output))).
Proof.
  unfold np_dot. destruct (_ =? _)%nat; [|discriminate]. intros [= <-] Hi Hj.
  rewrite <- (pixel_fmap_seq (t_rows output) (t_cols output)
                (fun r c => Qmax 0 (Qsum ((fun k => (t_at output r c k * nth k weights 0)%Q)
                                            <$> seq 0 (t_chans output)))) i j Hi Hj).
  f_equal. rewrite map_map. apply map_ext. intros r.
  rewrite map_map. reflexivity.
Qed.

Lemma channel_means_nonpos (g : tensor3) (k : nat) :
  (forall i j c, (t_at g i j c <= 0)%Q) ->
  (nth k (channel_means g) 0 <= 0)%Q.
Proof.
  intros Hg.
  destruct (channel_means g !! k) as [m|] eqn:E.
  2:{ rewrite nth_overflow by (by apply lookup_ge_None). lra. }
  rewrite (nth_lookup_Some _ _ _ _ E).
  apply list_elem_of_lookup_2 in E. unfold channel_means in E.
  apply list_elem_of_fmap in E as (c & -> & _).
  assert (Qsum (i ← seq 0 (t_rows g); (fun j => t_at g i j c) <$> seq 0 (t_cols g)) <= 0)%Q
    as Hsum.
  { apply Qsum_nonpos, Forall_forall. intros x Hx.
    apply list_elem_of_bind in Hx as (i & Hx & _).
    apply list_elem_of_fmap in Hx as (j & -> & _). apply Hg. }
  assert (0 <= Qnat (t_rows g * t_cols g))%Q as Hn.
  { unfold Qnat. change 0%Q with (inject_Z 0). rewrite <- Zle_Qle. lia. }
  destruct (Qeq_dec (Qnat (t_rows g * t_cols g)) 0) as [E|E].
  - unfold Qdiv. rewrite E. unfold Qinv. simpl. lra.
  - apply Qle_shift_div_r; lra.
Qed.

Section GradCamEvidence.

Variable class_score : keras_model -> nat -> result unit.
Variable gradient_function :
  keras_model -> nat -> string -> list npfloat -> result (tensor3 * tensor3).

(** When the activations of the layer are non-negative and no gradient
    of the class score is positive, there is nothing to show: the map
    is zero before the division, and every value [grad_cam] returns is
    NaN. *)
Theorem grad_cam_without_positive_gradient (model : keras_model) (image : list npfloat)
    (category_index : nat) (layer_name : string) (height width : nat)
    (output grads_val : tensor3) (heatmap : list (list npfloat)) :
  gradient_function model category_index layer_name image = Ok (output, grads_val) ->
  (forall i j k, (0 <= t_at output i j k)%Q) ->
  (forall i j k, (t_at grads_val i j k <= 0)%Q) ->
  grad_cam class_score gradient_function model image category_index layer_name height width
  = Ok heatmap ->
  Forall (Forall (fun x => x = NaN)) heatmap.
Proof.
  intros Hfun Hout Hgrad H.
  unfold grad_cam in H.
  destruct (class_score model category_index) as [[]|e]; [|discriminate].
  destruct (get_layer model layer_name) as [l|e]; [|discriminate].
  rewrite Hfun in H.
  destruct (np_dot output (channel_means grads_val)) as [cam0|e] eqn:Hdot;
    [|discriminate].
  destruct (cv2_resize _ _ _ _) as [cam|e] eqn:Hresize; [|discriminate].
  destruct (np_max2 cam) as [mx|e] eqn:Hmax; [|discriminate].
  injection H as <-.
  assert (Forall (Forall (fun x => (x == 0)%Q)) cam) as Hzero.
  { eapply cv2_resize_constant; [|exact Hresize].
    intros i j Hi Hj. rewrite (pixel_relu_dot _ _ _ _ _ Hdot) by done.
    apply Q.max_l. apply Qsum_nonpos, Forall_forall. intros x Hx.
    apply list_elem_of_fmap in Hx as (k & -> & _).
    pose proof (channel_means_nonpos grads_val k Hgrad) as Hw.
    pose proof (Qmult_le_0_compat _ (- nth k (channel_means grads_val) 0%Q)%Q
                  (Hout i j k) ltac:(lra)).
    lra. }
  destruct (np_max2_attained cam mx Hmax) as (row & Hrow & Hmx).
  assert (mx == 0)%Q as Hmx0.
  { eapply Forall_forall in Hzero; [|exact Hrow].
    eapply Forall_forall in Hzero; [exact Hzero | exact Hmx]. }
  apply Forall_fmap, Forall_forall. intros r Hr. simpl.
  apply Forall_fmap, Forall_forall. intros v Hv. simpl.
  eapply Forall_forall in Hzero; [|exact Hr].
  eapply Forall_forall in Hzero; [|exact Hv]. simpl in Hzero.
  apply Qeq_bool_iff in Hmx0 as E. rewrite E.
  apply Qeq_alt in Hzero. by rewrite Hzero.
Qed.

End GradCamEvidence.

Lemma nth_Forall_Q (P : Q -> Prop) (l : list Q) (n : nat) :
  Forall P l -> P 0%Q -> P (nth n l 0%Q).
Proof.
  intros Hl H0. destruct (l !! n) as [x|] eqn:E.
  - rewrite (nth_lookup_Some _ _ _ _ E).
    eapply Forall_forall in Hl; [exact Hl|]. by apply list_elem_of_lookup_2 in E.
  - rewrite nth_overflow by (by apply lookup_ge_None). exact H0.
Qed.

Lemma grad_cam_without_positive_gradient_witness :
  Forall (Forall (fun x => x = NaN)) [[NaN; NaN]; [NaN; NaN]].
Proof.
  apply (grad_cam_without_positive_gradient example_class_score zero_gradient_function
           example_model [] 0 "conv2d_5" 2 2 example_activations zero_gradients).
  - reflexivity.
  - intros i j k. apply (nth_Forall_Q (Qle 0)); [|lra].
    repeat (constructor; [lra|]). constructor.
  - intros i j k. apply (nth_Forall_Q (fun x => x <= 0)%Q); [|lra].
    repeat (constructor; [lra|]). constructor.
  - vm_compute. reflexivity.
Defined.

(** * The orchestrator *)

(** ** The file system *)

Lemma set_directories_same (w : world) : set_directories (directories w) w = w.
Proof. by destruct w. Qed.

Lemma set_arrays_same (w : world) : set_arrays (arrays w) w = w.
Proof. by destruct w. Qed.

Lemma only_directories_refl (w : world) : only_directories w w.
Proof. split; [by rewrite set_directories_same | done]. Qed.

Lemma only_directories_trans (w1 w2 w3 : world) :
  only_directories w1 w2 -> only_directories w2 w3 -> only_directories w1 w3.
Proof.
  intros [E1 S1] [E2 S2]. split; [|by etrans].
  rewrite E2 at 1. rewrite E1. by destruct w1.
Qed.

Lemma os_mkdir_spec (p : string) (w : world) (r : result unit) (w' : world) :
  os_mkdir p w = (r, w') ->
  (r = Ok tt /\ w' = set_directories ({[p]} ∪ directories w) w) \/
  (r = Raise OSError /\ w' = w).
Proof.
  unfold os_mkdir, bind, get, put, raise.
  destruct (_ || _ || _); intros [= <- <-]; auto.
Qed.

Lemma make_missing_spec (ps : list string) (w : world) (r : result unit) (w' : world) :
  make_missing ps w = (r, w') ->
  only_directories w w' /\ (r = Ok tt \/ r = Raise OSError).
Proof.
  revert w. induction ps as [|p ps IH]; intros w.
  - intros [= <- <-]. split; [apply only_directories_refl | by left].
  - cbn [make_missing]. unfold bind at 1. unfold get at 1.
    destruct (path_exists w p).
    + rewrite bind_ret. apply IH.
    + unfold bind at 1. destruct (os_mkdir p w) as [[[]|e] w1] eqn:E;
        apply os_mkdir_spec in E as [[Hr ->]|[Hr ->]]; try discriminate.
      * intros H. apply IH in H as [Hd Hr']. split; [|exact Hr'].
        eapply only_directories_trans; [|exact Hd].
        split; [by destruct w | apply union_subseteq_r].
      * injection Hr as ->. intros [= <- <-].
        split; [apply only_directories_refl | by right].
Qed.

Lemma os_makedirs_spec (p : string) (w : world) (r : result unit) (w' : world) :
  os_makedirs p w = (r, w') ->
  only_directories w w' /\
  ((r = Ok tt /\ p ∈ directories w') \/ r = Raise OSError).
Proof.
  unfold os_makedirs, bind.
  destruct (make_missing (ancestors p) w) as [[[]|e] w1] eqn:E;
    apply make_missing_spec in E as [Hd [Hr|Hr]]; try discriminate.
  - intros H. apply os_mkdir_spec in H as [[-> ->]|[-> ->]].
    + split; [|left; split; [done | apply elem_of_union_l, elem_of_singleton_2; done]].
      eapply only_directories_trans; [exact Hd|].
      split; [by destruct w1 | apply union_subseteq_r].
    + split; [exact Hd | by right].
  - injection Hr as ->. intros [= <- <-]. split; [exact Hd | by right].
Qed.


(** ** What each step of [main] leaves alone *)


Lemma quiet_trans (a b c : world) : quiet a b -> quiet b c -> quiet a c.
Proof. intros [H1 H2] [H3 H4]. split; congruence. Qed.

Lemma quiet_lift_heap {A} (m : M heap A) : steps_in quiet (lift_heap m).
Proof.
  intros w r w'. unfold lift_heap. destruct (m (arrays w)). by intros [= <- <-].
Qed.

Lemma quiet_lift_tf {A} (m : M tf_state A) : steps_in quiet (lift_tf m).
Proof.
  intros w r w'. unfold lift_tf. destruct (m (tensorflow w)). by intros [= <- <-].
Qed.

Lemma quiet_lift_result {A} (x : result A) : steps_in quiet (lift_result x).
Proof. intros w r w'. destruct x; by intros [= <- <-]. Qed.

Lemma quiet_ret {A} (a : A) : steps_in quiet (ret a).
Proof. intros w r w'. by intros [= <- <-]. Qed.

Lemma quiet_print (s : string) : steps_in quiet (print s).
Proof. intros w r w'. unfold print, bind, get, put. by intros [= <- <-]. Qed.

Lemma quiet_randint (a b : nat) : steps_in quiet (randint a b).
Proof.
  intros w r w'. unfold randint, randbelow, bind, get, put, ret, raise.
  destruct (b <? a)%nat; by intros [= <- <-].
Qed.

Section MainSteps.

Variable imwrite_error : string -> list nat -> buffer -> option exn.

Lemma quiet_model_object (model : nat) : steps_in quiet (model_object model).
Proof.
  intros w r w'. unfold model_object, bind, get, ret, raise.
  destruct (_ !! _); by intros [= <- <-].
Qed.

Lemma cv2_imwrite_spec (p : string) (img : ndarray) (w : world)
    (r : result unit) (w' : world) :
  cv2_imwrite imwrite_error p img w = (r, w') ->
  directories w' = directories w /\
  ((imwrite_calls w' = imwrite_calls w /\ exists e, r = Raise e) \/
   imwrite_calls w' = imwrite_calls w ++ [p]).
Proof.
  unfold cv2_imwrite. unfold bind at 1.
  destruct (lift_heap (contents img) w) as [[b|e] w1] eqn:E.
  - apply quiet_lift_heap in E as [Hd Hi].
    unfold bind, get, put, ret, raise.
    destruct (imwrite_error p (shape img) b); intros [= <- <-]; simpl;
      (split; [exact Hd | right; by rewrite Hi]).
  - apply quiet_lift_heap in E as [Hd Hi]. intros [= <- <-].
    split; [exact Hd | left; eauto].
Qed.

Lemma cv2_imwrite_ok (p : string) (img : ndarray) (w : world) (b : buffer) :
  arrays w !! base img = Some b ->
  exists r,
    cv2_imwrite imwrite_error p img w
    = (r, set_imwrite_calls (imwrite_calls w ++ [p]) w).
Proof.
  intros H. unfold cv2_imwrite. unfold bind at 1. unfold lift_heap.
  rewrite (contents_ok _ _ _ H). rewrite set_arrays_same.
  unfold bind, get, put, ret, raise.
  destruct (imwrite_error _ _ _); eauto.
Qed.

End MainSteps.

(** ** Which images a computation hands to [cv2.imwrite] *)

Lemma writes_targets_quiet {A} (m : M world A) :
  steps_in quiet m -> writes_targets [] m.
Proof.
  intros H w r w' E. apply H in E as [_ E]. exists 0%nat.
  split; [done|]. split; [by rewrite app_nil_r | done].
Qed.

Lemma writes_targets_bind {A B} (t1 t2 : list string)
    (m : M world A) (k : A -> M world B) :
  writes_targets t1 m -> (forall a, writes_targets t2 (k a)) ->
  writes_targets (t1 ++ t2) (bind m k).
Proof.
  intros Hm Hk w r w'. unfold bind.
  destruct (m w) as [[a|e] w1] eqn:E.
  - intros H. apply Hm in E as (k1 & Hk1 & E1 & Hok).
    apply Hk in H as (k2 & Hk2 & E2 & Hok2).
    rewrite (Hok a eq_refl) in E1. rewrite take_ge in E1 by lia.
    exists (length t1 + k2)%nat. split; [rewrite length_app; lia|]. split.
    + rewrite E2, E1, <- app_assoc. f_equal.
      by rewrite take_app_add'.
    + intros b Hb. rewrite length_app. by rewrite (Hok2 b Hb).
  - intros [= <- <-]. apply Hm in E as (k1 & Hk1 & E1 & _).
    exists k1. split; [rewrite length_app; lia|]. split; [|discriminate].
    by rewrite take_app_le.
Qed.

Lemma writes_targets_then {A B} (t : list string)
    (m : M world A) (k : A -> M world B) :
  steps_in quiet m -> (forall a, writes_targets t (k a)) ->
  writes_targets t (bind m k).
Proof.
  intros Hm Hk. apply (writes_targets_bind [] t); [by apply writes_targets_quiet | done].
Qed.

Lemma writes_targets_imwrite (imwrite_error : string -> list nat -> buffer -> option exn)
    (p : string) (img : ndarray) :
  writes_targets [p] (cv2_imwrite imwrite_error p img).
Proof.
  intros w r w' E. apply cv2_imwrite_spec in E as [_ [[Hi [e ->]]|Hi]].
  - exists 0%nat. split; [simpl; lia|]. split; [by rewrite app_nil_r | discriminate].
  - exists 1%nat. split; [done|]. split; [exact Hi | done].
Qed.

Lemma writes_targets_imwrite_then {B}
    (imwrite_error : string -> list nat -> buffer -> option exn)
    (p : string) (img : ndarray) (t : list string) (k : unit -> M world B) :
  (forall a, writes_targets t (k a)) ->
  writes_targets (p :: t) (bind (cv2_imwrite imwrite_error p img) k).
Proof.
  intros Hk. apply (writes_targets_bind [p] t); [apply writes_targets_imwrite | done].
Qed.


(** ** The run of [main] up to its first write *)

Lemma bind_get {S B} (k : S -> M S B) (s : S) : bind get k s = k s s.
Proof. reflexivity. Qed.

Lemma load_model_ok (path gradient_name : string) (st : tf_state) (ls : list layer) :
  disk st !! path = Some ls ->
  load_model path gradient_name st
  = (Ok (length (objects st)),
     {| gradient_registry := gradient_registry st;
        objects := objects st ++ [{| layers := ls; relu_gradient := gradient_name |}];
        disk := disk st |}).
Proof. intros H. unfold load_model, bind, get, put, ret. by rewrite H. Qed.

Lemma load_model_missing (path gradient_name : string) (st : tf_state) :
  disk st !! path = None ->
  load_model path gradient_name st = (Raise OSError, st).
Proof. intros H. unfold load_model, bind, get, raise. by rewrite H. Qed.

Lemma randint_from_zero (n : nat) (w : world) :
  randint 0 n w
  = (Ok (random_outputs w (random_draws w) mod (n + 1))%nat,
     set_random_draws (S (random_draws w)) w).
Proof.
  unfold randint, randbelow, bind, get, put, ret. simpl.
  by rewrite Nat.sub_0_r.
Qed.

Lemma lift_tf_run {A} (m : M tf_state A) (w : world) (r : result A) (t : tf_state) :
  m (tensorflow w) = (r, t) -> lift_tf m w = (r, set_tensorflow t w).
Proof. intros H. unfold lift_tf. by rewrite H. Qed.

Lemma lift_heap_run {A} (m : M heap A) (w : world) (r : result A) (h : heap) :
  m (arrays w) = (r, h) -> lift_heap m w = (r, set_arrays h w).
Proof. intros H. unfold lift_heap. by rewrite H. Qed.

Ltac quiet_step :=
  first [ apply quiet_lift_heap | apply quiet_lift_tf | apply quiet_lift_result
        | apply quiet_print | apply quiet_model_object | apply quiet_randint
        | apply quiet_ret ].





Ltac writes_targets_steps :=
  repeat first
    [ apply writes_targets_imwrite
    | apply writes_targets_imwrite_then; intros ?
    | apply writes_targets_then; [quiet_step | intros ?] ].

Section MainFacts.

Variables (arg_p arg_o : string).
Variable cifar100_load_data : result dataset.
Variable cv2_resize_image : picture -> nat * nat -> result picture.
Variable imwrite_error : string -> list nat -> buffer -> option exn.
Variable predict : keras_model -> list npfloat -> result (list (list Q)).
Variable class_score : keras_model -> nat -> result unit.
Variable gradient_function :
  keras_model -> nat -> string -> list npfloat -> result (tensor3 * tensor3).
Variable saliency_function :
  registry -> keras_model -> string -> list npfloat -> list npfloat.
Variable COLORMAP_JET : Z -> Z * Z * Z.
Variable sqrt : Q -> Q.
Variable image_dim_ordering : string.

Lemma main_head (w w1 : world) (train : list picture * list nat)
    (x_test : list picture) (y_test : list nat) (ls : list layer)
    (x p : picture) :
  (if bool_decide (os_path_join (cwd w) arg_o ∈ directories w)
   then ret tt else os_makedirs (os_path_join (cwd w) arg_o)) w = (Ok tt, w1) ->
  disk (tensorflow w) !! arg_p = Some ls ->
  cifar100_load_data = Ok (train, (x_test, y_test)) ->
  x_test !! (random_outputs w (random_draws w) mod (length x_test + 1))%nat = Some x ->
  cv2_resize_image x (224, 224)%nat = Ok p ->
  exists (tail : unit -> M world unit) (w9 : world) (img0 : ndarray),
    main arg_p arg_o cifar100_load_data cv2_resize_image imwrite_error predict
      class_score gradient_function saliency_function COLORMAP_JET sqrt
      image_dim_ordering w
    = bind (cv2_imwrite imwrite_error
              (os_path_join arg_p
                 (String.append
                    (str (random_outputs w (random_draws w) mod (length x_test + 1)))
                    ".jpg")) img0) tail w9 /\
    (forall u,
       writes_targets
         [os_path_join (os_path_join (cwd w) arg_o)
            (String.append
               (str (random_outputs w (random_draws w) mod (length x_test + 1)))
               "_gradcam.jpg");
          os_path_join (os_path_join (cwd w) arg_o)
            (String.append
               (str (random_outputs w (random_draws w) mod (length x_test + 1)))
               "_saliency.jpg");
          os_path_join (os_path_join (cwd w) arg_o)
            (String.append
               (str (random_outputs w (random_draws w) mod (length x_test + 1)))
               "_guided-gradcam.jpg")]
         (tail u)) /\
    imwrite_calls w9 = imwrite_calls w /\
    printed w9 = printed w /\
    directories w9 = directories w1 /\
    is_Some (arrays w9 !! base img0).
Proof.
  intros Hmk Hdisk Hdata Hx Hp.
  assert (only_directories w w1) as [Hw1 _].
  { destruct (bool_decide _) in Hmk.
    - injection Hmk as <-. apply only_directories_refl.
    - by apply os_makedirs_spec in Hmk as [? _]. }
  remember (directories w1) as d eqn:Hd. clear Hd. subst w1.
  unfold main. rewrite bind_get. cbv zeta.
  rewrite (bind_ok _ _ _ _ _ Hmk).
  erewrite bind_ok by (apply lift_tf_run; apply load_model_ok; exact Hdisk).
  unfold alexnet.load_dataset. rewrite Hdata, bind_lift_ok. cbv beta iota.
  rewrite (bind_ok _ _ _ _ _ (randint_from_zero _ _)).
  cbn [random_outputs random_draws set_tensorflow set_directories].
  unfold getitem at 1. rewrite Hx, bind_lift_ok.
  unfold alexnet.preprocess_image. rewrite Hp, bind_lift_ok.
  erewrite bind_ok by (apply lift_heap_run; apply alloc_spec).
  unfold np_getitem0 at 1. cbn [shape].
  erewrite bind_ok by (apply lift_heap_run; reflexivity).
  eexists _, _, _. split; [reflexivity|].
  split; [intros u; writes_targets_steps|].
  repeat split. cbn [arrays set_arrays base]. rewrite lookup_app_new. eauto.
Qed.

(** C8, as the code has it.  In a run that gets as far as line 174
    (the output directory exists or can be made, the model loads, the
    data set loads, the index drawn is in bounds and the image is
    resized), the first image is handed to [cv2.imwrite] under the path
    of the model, [os.path.join(path, str(index) + ".jpg")]; the only
    other writes are those of the Grad-CAM image, the saliency map and
    the guided Grad-CAM image, in this order, under the output
    directory, as far as the run gets; a run that completes has made
    all four. *)
Theorem main_writes_input_image_under_model_path
    (w w1 : world) (train : list picture * list nat)
    (x_test : list picture) (y_test : list nat) (ls : list layer)
    (x p : picture) :
  (if bool_decide (os_path_join (cwd w) arg_o ∈ directories w)
   then ret tt else os_makedirs (os_path_join (cwd w) arg_o)) w = (Ok tt, w1) ->
  disk (tensorflow w) !! arg_p = Some ls ->
  cifar100_load_data = Ok (train, (x_test, y_test)) ->
  x_test !! (random_outputs w (random_draws w) mod (length x_test + 1))%nat = Some x ->
  cv2_resize_image x (224, 224)%nat = Ok p ->
  exists r w' k,
    main arg_p arg_o cifar100_load_data cv2_resize_image imwrite_error predict
      class_score gradient_function saliency_function COLORMAP_JET sqrt
      image_dim_ordering w = (r, w') /\
    (k <= 3)%nat /\
    imwrite_calls w'
    = imwrite_calls w
      ++ os_path_join arg_p
           (String.append
              (str (random_outputs w (random_draws w) mod (length x_test + 1)))
              ".jpg")
         :: take k
              [os_path_join (os_path_join (cwd w) arg_o)
                 (String.append
                    (str (random_outputs w (random_draws w) mod (length x_test + 1)))
                    "_gradcam.jpg");
               os_path_join (os_path_join (cwd w) arg_o)
                 (String.append
                    (str (random_outputs w (random_draws w) mod (length x_test + 1)))
                    "_saliency.jpg");
               os_path_join (os_path_join (cwd w) arg_o)
                 (String.append
                    (str (random_outputs w (random_draws w) mod (length x_test + 1)))
                    "_guided-gradcam.jpg")] /\
    (r = Ok tt -> k = 3%nat).
Proof.
  intros Hmk Hdisk Hdata Hx Hp.
  destruct (main_head w w1 train x_test y_test ls x p Hmk Hdisk Hdata Hx Hp)
    as (tail & w9 & img0 & -> & Htail & Hcalls & _ & _ & [b Hb]).
  destruct (cv2_imwrite_ok imwrite_error
              (os_path_join arg_p
                 (String.append
                    (str (random_outputs w (random_draws w) mod (length x_test + 1)))
                    ".jpg")) img0 w9 b Hb) as [r0 Hwrite].
  unfold bind at 1. rewrite Hwrite.
  destruct r0 as [[]|e].
  - destruct (tail tt _) as [r w'] eqn:E.
    apply Htail in E as (k & Hk & E & Hok).
    exists r, w', k. split; [reflexivity|]. split; [exact Hk|]. split.
    + rewrite E. cbn [imwrite_calls set_imwrite_calls]. rewrite Hcalls.
      by rewrite <- app_assoc.
    + intros ->. by apply (Hok tt).
  - eexists _, _, 0%nat. split; [reflexivity|]. split; [lia|]. split.
    + cbn [imwrite_calls set_imwrite_calls take]. by rewrite Hcalls.
    + discriminate.
Qed.


Lemma randint_outcomes_spec (a b k : nat) :
  (a <= b)%nat -> k ∈ randint_outcomes a b <-> (a <= k <= b)%nat.
Proof.
  intros Hab. unfold randint_outcomes. rewrite elem_of_seq. lia.
Qed.

Lemma getitem_overrun {A} (l : list A) : getitem l (length l) = Raise IndexError.
Proof. unfold getitem. by rewrite lookup_ge_None_2. Qed.

Lemma getitem_in_bounds {A} (l : list A) (i : nat) :
  (i < length l)%nat -> exists x, getitem l i = Ok x.
Proof.
  intros H. unfold getitem.
  destruct (lookup_lt_is_Some_2 l i H) as [x ->]. eauto.
Qed.

(** C10: [random.randint(0, len(x_test))] draws from the closed
    interval: whatever the state of the generator the index lies in
    [0, len(x_test)], each value of the interval is the outcome for one
    residue of the generator's output (so each is as likely as any
    other), and len(x_test) is among them.  When it is drawn, the run
    ends at line 173 in [IndexError], before anything is written or
    printed; every smaller index is in bounds. *)
Theorem randint_draw_may_overrun
    (w w1 : world) (train : list picture * list nat)
    (x_test : list picture) (y_test : list nat) (ls : list layer) :
  (if bool_decide (os_path_join (cwd w) arg_o ∈ directories w)
   then ret tt else os_makedirs (os_path_join (cwd w) arg_o)) w = (Ok tt, w1) ->
  disk (tensorflow w) !! arg_p = Some ls ->
  cifar100_load_data = Ok (train, (x_test, y_test)) ->
  (forall w0 : world,
     exists k, (randint 0 (length x_test) w0).1 = Ok k /\ (k <= length x_test)%nat) /\
  (forall (w0 : world) (k : nat),
     (k <= length x_test)%nat ->
     ((randint 0 (length x_test) w0).1 = Ok k
      <-> (random_outputs w0 (random_draws w0) mod (length x_test + 1))%nat = k)) /\
  (forall k, k ∈ randint_outcomes 0 (length x_test) <-> (k <= length x_test)%nat) /\
  (forall k, k ∈ randint_outcomes 0 (length x_test) ->
     (randint_probability 0 (length x_test) k == 1 / Qnat (length x_test + 1))%Q) /\
  ((random_outputs w (random_draws w) mod (length x_test + 1))%nat = length x_test ->
     exists w',
       main arg_p arg_o cifar100_load_data cv2_resize_image imwrite_error predict
         class_score gradient_function saliency_function COLORMAP_JET sqrt
         image_dim_ordering w = (Raise IndexError, w') /\
       imwrite_calls w' = imwrite_calls w /\
       printed w' = printed w) /\
  getitem x_test (length x_test) = Raise IndexError /\
  (forall index, (index < length x_test)%nat -> exists x, getitem x_test index = Ok x).
Proof.
  intros Hmk Hdisk Hdata.
  split.
  { intros w0. rewrite randint_from_zero. eexists. split; [reflexivity|].
    pose proof (Nat.mod_upper_bound (random_outputs w0 (random_draws w0))
                  (length x_test + 1)). lia. }
  split.
  { intros w0 k Hk. rewrite randint_from_zero. cbn [fst].
    split; [by intros [= ->] | by intros ->]. }
  split.
  { intros k. rewrite randint_outcomes_spec by lia. lia. }
  split.
  { intros k Hk. unfold randint_probability.
    rewrite bool_decide_eq_true_2 by exact Hk.
    by rewrite Nat.sub_0_r. }
  split; [|split; [apply getitem_overrun | apply getitem_in_bounds]].
  intros Hdraw.
  assert (only_directories w w1) as [Hw1 _].
  { destruct (bool_decide _) in Hmk.
    - injection Hmk as <-. apply only_directories_refl.
    - by apply os_makedirs_spec in Hmk as [? _]. }
  remember (directories w1) as d eqn:Hd. clear Hd. subst w1.
  unfold main. rewrite bind_get. cbv zeta.
  rewrite (bind_ok _ _ _ _ _ Hmk).
  erewrite bind_ok by (apply lift_tf_run; apply load_model_ok; exact Hdisk).
  unfold alexnet.load_dataset. rewrite Hdata, bind_lift_ok. cbv beta iota.
  rewrite (bind_ok _ _ _ _ _ (randint_from_zero _ _)).
  cbn [random_outputs random_draws set_tensorflow set_directories].
  rewrite Hdraw, getitem_overrun, bind_lift_raise.
  eexists. split; [reflexivity|]. by split.
Qed.


End MainFacts.

(** The sample run: default arguments from "/home/user", a test set of
    two one-pixel images, and the library stand-ins. *)
Lemma example_output_directory_made (draw : nat) :
  (if bool_decide (os_path_join (cwd (example_world draw)) default_o
                   ∈ directories (example_world draw))
   then ret tt
   else os_makedirs (os_path_join (cwd (example_world draw)) default_o))
    (example_world draw)
  = (Ok tt,
     set_directories ({["/home/user/output"]} ∪ directories (example_world draw))
       (example_world draw)).
Proof. vm_compute. reflexivity. Qed.

Lemma main_writes_input_image_under_model_path_witness :
  exists r w' k,
    main default_p default_o (Ok example_dataset) example_resize_picture
      example_imwrite_error example_predict example_class_score
      example_gradient_function example_saliency_function example_colormap
      sqrt_at_zero "tf" (example_world 1) = (r, w') /\
    (k <= 3)%nat /\
    imwrite_calls w'
    = "saved_models/keras_alexnet.h5/1.jpg"
      :: take k ["/home/user/output/1_gradcam.jpg";
                 "/home/user/output/1_saliency.jpg";
                 "/home/user/output/1_guided-gradcam.jpg"] /\
    (r = Ok tt -> k = 3%nat).
Proof.
  apply (main_writes_input_image_under_model_path default_p default_o
           (Ok example_dataset) example_resize_picture
           example_imwrite_error example_predict example_class_score
           example_gradient_function example_saliency_function example_colormap
           sqrt_at_zero "tf" (example_world 1)
           (set_directories ({["/home/user/output"]} ∪ directories (example_world 1))
              (example_world 1))
           ([], []) example_x_test example_y_test example_layers
           {| pic_shape := [1; 1; 3]%nat; pic_bytes := [40; 50; 60]%Z |}
           {| pic_shape := [224; 224; 3]%nat;
              pic_bytes := concat (replicate (224 * 224) [40; 50; 60]%Z) |}).
  - apply example_output_directory_made.
  - reflexivity.
  - reflexivity.
  - reflexivity.
  - reflexivity.
Defined.

Lemma randint_draw_may_overrun_witness :
  (exists w',
     main default_p default_o (Ok example_dataset) example_resize_picture
       example_imwrite_error example_predict example_class_score
       example_gradient_function example_saliency_function example_colormap
       sqrt_at_zero "tf" (example_world 2) = (Raise IndexError, w') /\
     imwrite_calls w' = [] /\ printed w' = []) /\
  getitem example_x_test 2 = Raise IndexError.
Proof.
  pose proof (randint_draw_may_overrun default_p default_o
                (Ok example_dataset) example_resize_picture
                example_imwrite_error example_predict example_class_score
                example_gradient_function example_saliency_function example_colormap
                sqrt_at_zero "tf" (example_world 2)
                (set_directories ({["/home/user/output"]} ∪ directories (example_world 2))
                   (example_world 2))
                ([], []) example_x_test example_y_test example_layers
                (example_output_directory_made 2) eq_refl eq_refl)
    as (_ & _ & _ & _ & Hrun & Hover & _).
  split; [exact (Hrun eq_refl) | exact Hover].
Defined.

(** ** A run of [main] that completes *)

Section KeepsFloat.

Variables (b n : nat).











End KeepsFloat.











Section MainCompletes.

Variables (arg_p arg_o : string).
Variable cifar100_load_data : result dataset.
Variable cv2_resize_image : picture -> nat * nat -> result picture.
Variable imwrite_error : string -> list nat -> buffer -> option exn.
Variable predict : keras_model -> list npfloat -> result (list (list Q)).
Variable class_score : keras_model -> nat -> result unit.
Variable gradient_function :
  keras_model -> nat -> string -> list npfloat -> result (tensor3 * tensor3).
Variable saliency_function :
  registry -> keras_model -> string -> list npfloat -> list npfloat.
Variable COLORMAP_JET : Z -> Z * Z * Z.
Variable sqrt : Q -> Q.
Variable image_dim_ordering : string.


End MainCompletes.


